(** * SPIR-V builder extensions of the Xenia GPU back end

    A shallow embedding of [src/xenia/gpu/spirv_builder.cc]: the N-ary
    emission operation [createQuadOp], the no-contraction wrappers, the
    extended-instruction (builtin) calls and the structured [IfBuilder].

    The file under verification extends the SPIR-V builder of the shader
    compiler library it links against.  The classes of that library
    ([spv::Instruction], [spv::Block], [spv::Function], the base builder) are
    not part of the verified sources; they are modelled in the first part of
    this development from the data model of the specification, and every such
    definition says so in its documentation comment. *)

From Stdlib Require Import ZArith List Bool Lia.
From stdpp Require Import base option list numbers.

(** ** Machine integers *)

(** [spv::Id] and the branch weights are C++ [unsigned int]: 32-bit values
    whose arithmetic wraps around. *)
Definition wrap32 (z : Z) : Z := (z mod 2 ^ 32)%Z.

(** ** Outcomes of a call

    A call either returns, trips an assertion (only possible when the
    assertions are compiled in), or dereferences a pointer that designates no
    object, which the C++ program leaves undefined. *)
Inductive Outcome (A : Type) : Type :=
  | Ok (a : A)
  | AssertionFailure
  | InvalidPointer.
Arguments Ok {A} a.
Arguments AssertionFailure {A}.
Arguments InvalidPointer {A}.

(** ** The SPIR-V intermediate representation *)
Module spv.

Abbreviation Id := Z (only parsing).
Abbreviation Op := Z (only parsing).

(** Reserved id standing for "no result id" and "no result type". *)
Definition NoResult : Id := 0%Z.
Definition NoType : Id := 0%Z.

(** Opcode and decoration numbers of the SPIR-V enumerations used by the
    verified file. *)
Definition OpExtInst : Op := 12%Z.
Definition OpSpecConstantOp : Op := 52%Z.
Definition OpDecorate : Op := 71%Z.
Definition OpPhi : Op := 245%Z.
Definition OpSelectionMerge : Op := 247%Z.
Definition OpBranch : Op := 249%Z.
Definition OpBranchConditional : Op := 250%Z.
Definition DecorationNoContraction : Z := 42%Z.

(** Modelled from the spec: the operand of an instruction, either an id or
    an immediate (literal) 32-bit word. *)
Inductive Operand : Type :=
  | IdOperand (id : Id)
  | ImmediateOperand (immediate : Z).

(** Modelled from the spec: [spv::Instruction], a record of opcode, result
    type, result id and an ordered operand list.  The absent result id and
    type are the reserved id 0. *)
Record Instruction : Type := mkInstruction {
  resultId : Id;
  typeId : Id;
  opCode : Op;
  operands : list Operand
}.

(** The two constructors the verified file calls:
    [Instruction(resultId, typeId, opCode)] and [Instruction(opCode)]. *)
Definition Instruction_new (resultId typeId : Id) (opCode : Op) : Instruction :=
  mkInstruction resultId typeId opCode [].

Definition Instruction_newOp (opCode : Op) : Instruction :=
  mkInstruction NoResult NoType opCode [].

Definition addIdOperand (id : Id) (i : Instruction) : Instruction :=
  mkInstruction (resultId i) (typeId i) (opCode i) (operands i ++ [IdOperand id]).

Definition addImmediateOperand (immediate : Z) (i : Instruction) : Instruction :=
  mkInstruction (resultId i) (typeId i) (opCode i)
                (operands i ++ [ImmediateOperand immediate]).

Definition getResultId (i : Instruction) : Id := resultId i.

(** Pointers to heap-allocated blocks and functions are addresses in the
    object stores of the builder state below. *)
Abbreviation BlockPtr := nat (only parsing).
Abbreviation FunctionPtr := nat (only parsing).

(** Modelled from the spec: [spv::Block], with its identity, the
    back-reference to the owning function, the ordered instructions and
    the predecessor blocks in registration order. *)
Record Block : Type := mkBlock {
  blockId : Id;
  parent : FunctionPtr;
  instructions : list Instruction;
  predecessors : list BlockPtr
}.

Definition Block_new (id : Id) (parent : FunctionPtr) : Block :=
  mkBlock id parent [] [].

Definition Block_addInstruction (inst : Instruction) (b : Block) : Block :=
  mkBlock (blockId b) (parent b) (instructions b ++ [inst]) (predecessors b).

Definition Block_addPredecessor (pred : BlockPtr) (b : Block) : Block :=
  mkBlock (blockId b) (parent b) (instructions b) (predecessors b ++ [pred]).

(** Modelled from the spec: [spv::Function], an ordered, growing-only
    sequence of blocks. *)
Record Function : Type := mkFunction {
  functionId : Id;
  blocks : list BlockPtr
}.

Definition Function_addBlock (block : BlockPtr) (f : Function) : Function :=
  mkFunction (functionId f) (blocks f ++ [block]).

End spv.
Import spv.

(** ** The emitter state

    Modelled from the spec: the state of the base builder that the verified
    file reads and writes: the id counter, the build point, the
    spec-constant mode flag, the stores of the blocks and functions
    allocated so far (a pointer is an index into its store), the table of
    constant-expression records and the decorations. *)
Record Builder : Type := mkBuilder {
  uniqueId : Id;
  buildPoint : BlockPtr;
  generatingOpCodeForSpecConst : bool;
  blockHeap : list Block;
  functionHeap : list Function;
  constantsTypesGlobals : list Instruction;
  decorations : list Instruction
}.

Definition set_uniqueId (v : Id) (s : Builder) : Builder :=
  mkBuilder v (buildPoint s) (generatingOpCodeForSpecConst s) (blockHeap s)
            (functionHeap s) (constantsTypesGlobals s) (decorations s).

Definition set_buildPoint (v : BlockPtr) (s : Builder) : Builder :=
  mkBuilder (uniqueId s) v (generatingOpCodeForSpecConst s) (blockHeap s)
            (functionHeap s) (constantsTypesGlobals s) (decorations s).

Definition set_blockHeap (v : list Block) (s : Builder) : Builder :=
  mkBuilder (uniqueId s) (buildPoint s) (generatingOpCodeForSpecConst s) v
            (functionHeap s) (constantsTypesGlobals s) (decorations s).

Definition set_functionHeap (v : list Function) (s : Builder) : Builder :=
  mkBuilder (uniqueId s) (buildPoint s) (generatingOpCodeForSpecConst s)
            (blockHeap s) v (constantsTypesGlobals s) (decorations s).

Definition set_constantsTypesGlobals (v : list Instruction) (s : Builder) : Builder :=
  mkBuilder (uniqueId s) (buildPoint s) (generatingOpCodeForSpecConst s)
            (blockHeap s) (functionHeap s) v (decorations s).

Definition set_decorations (v : list Instruction) (s : Builder) : Builder :=
  mkBuilder (uniqueId s) (buildPoint s) (generatingOpCodeForSpecConst s)
            (blockHeap s) (functionHeap s) (constantsTypesGlobals s) v.

(** ** The builder monad: state passing with the two ways of not returning *)
Definition M (A : Type) : Type := Builder -> Outcome (A * Builder).

Definition ret {A} (a : A) : M A := fun s => Ok (a, s).

Definition bind {A B} (m : M A) (k : A -> M B) : M B :=
  fun s =>
    match m s with
    | Ok (a, s') => k a s'
    | AssertionFailure => AssertionFailure
    | InvalidPointer => InvalidPointer
    end.

Declare Scope builder_scope.
Delimit Scope builder_scope with builder.
Notation "'let*' x ':=' m 'in' k" := (bind m (fun x => k))
  (at level 10, x name, m at level 100, k at level 200) : builder_scope.
Notation "m ';;;' k" := (bind m (fun _ => k))
  (at level 100, k at level 200, right associativity) : builder_scope.
Open Scope builder_scope.

Definition gets {A} (f : Builder -> A) : M A := fun s => Ok (f s, s).
Definition modify (f : Builder -> Builder) : M unit := fun s => Ok (tt, f s).

(** [assert_true(e)] expands to the C [assert]: it is compiled out when
    [NDEBUG] is defined. *)
Definition assert_true (NDEBUG : bool) (e : bool) : M unit :=
  fun s => if NDEBUG || e then Ok (tt, s) else AssertionFailure.

(** Reading and updating an object through a pointer. *)
Definition derefBlock (p : BlockPtr) : M Block :=
  fun s => match blockHeap s !! p with
           | Some b => Ok (b, s)
           | None => InvalidPointer
           end.

Definition updateBlock (p : BlockPtr) (f : Block -> Block) : M unit :=
  let* _ := derefBlock p in
  modify (fun s => set_blockHeap (alter f p (blockHeap s)) s).

Definition derefFunction (p : FunctionPtr) : M Function :=
  fun s => match functionHeap s !! p with
           | Some f => Ok (f, s)
           | None => InvalidPointer
           end.

Definition updateFunction (p : FunctionPtr) (g : Function -> Function) : M unit :=
  let* _ := derefFunction p in
  modify (fun s => set_functionHeap (alter g p (functionHeap s)) s).

(** [new spv::Block(id, function)]: a fresh object at the end of the store. *)
Definition newBlock (id : Id) (function : FunctionPtr) : M BlockPtr :=
  fun s => Ok (length (blockHeap s),
               set_blockHeap (blockHeap s ++ [Block_new id function]) s).

(** ** Operations of the base builder used by the verified file *)

(** Modelled from the spec: [getUniqueId], the allocator of fresh ids: it
    pre-increments the 32-bit counter and returns the new value. *)
Definition getUniqueId : M Id :=
  fun s => let id := wrap32 (uniqueId s + 1) in Ok (id, set_uniqueId id s).

(** Modelled from the spec: the accessors of the build point, and the
    methods of a block or a function called through a pointer to it. *)
Definition getBuildPoint : M BlockPtr := gets buildPoint.
Definition setBuildPoint (p : BlockPtr) : M unit := modify (set_buildPoint p).

Definition block_getId (p : BlockPtr) : M Id :=
  let* b := derefBlock p in ret (blockId b).

Definition block_getParent (p : BlockPtr) : M FunctionPtr :=
  let* b := derefBlock p in ret (parent b).

Definition block_addInstruction (p : BlockPtr) (inst : Instruction) : M unit :=
  updateBlock p (Block_addInstruction inst).

Definition block_addPredecessor (p pred : BlockPtr) : M unit :=
  updateBlock p (Block_addPredecessor pred).

Definition function_addBlock (f : FunctionPtr) (block : BlockPtr) : M unit :=
  updateFunction f (Function_addBlock block).

(** Modelled from the spec: [createBranch], the unconditional branch from
    the build point to [block]; branch emission registers the build point
    as a predecessor of the target. *)
Definition createBranch (block : BlockPtr) : M unit :=
  let* target := block_getId block in
  let branch := addIdOperand target (Instruction_newOp OpBranch) in
  let* bp := getBuildPoint in
  block_addInstruction bp branch ;;;
  block_addPredecessor block bp.

(** Modelled from the spec: [createSelectionMerge], the selection-merge
    instruction naming the merge block and the control flags. *)
Definition createSelectionMerge (mergeBlock : BlockPtr) (control : Z) : M unit :=
  let* target := block_getId mergeBlock in
  let merge :=
    addImmediateOperand control
      (addIdOperand target (Instruction_newOp OpSelectionMerge)) in
  let* bp := getBuildPoint in
  block_addInstruction bp merge.

(** Modelled from the spec: [createSpecConstantOp], the constant-folding
    path: it allocates a fresh id and records a constant expression with the
    same opcode and operands in the constant table; the record belongs to no
    block. *)
Definition createSpecConstantOp (opCode : Op) (typeId : Id)
    (ops : list Id) (literals : list Z) : M Id :=
  let* id := getUniqueId in
  let op0 := addImmediateOperand opCode (Instruction_new id typeId OpSpecConstantOp) in
  let op1 := fold_left (fun i o => addIdOperand o i) ops op0 in
  let op2 := fold_left (fun i l => addImmediateOperand l i) literals op1 in
  modify (fun s => set_constantsTypesGlobals (constantsTypesGlobals s ++ [op2]) s) ;;;
  ret (getResultId op2).

(** Modelled from the spec: [createUnaryOp] and [createBinOp], the N-ary
    emission operation at arities one and two, with the same two paths as
    [createQuadOp]. *)
Definition createUnaryOp (op_code : Op) (type_id operand : Id) : M Id :=
  let* folding := gets generatingOpCodeForSpecConst in
  if (folding : bool) then
    createSpecConstantOp op_code type_id [operand] []
  else
    let* id := getUniqueId in
    let op := addIdOperand operand (Instruction_new id type_id op_code) in
    let* bp := getBuildPoint in
    block_addInstruction bp op ;;;
    ret (getResultId op).

Definition createBinOp (op_code : Op) (type_id left right : Id) : M Id :=
  let* folding := gets generatingOpCodeForSpecConst in
  if (folding : bool) then
    createSpecConstantOp op_code type_id [left; right] []
  else
    let* id := getUniqueId in
    let op := addIdOperand right (addIdOperand left (Instruction_new id type_id op_code)) in
    let* bp := getBuildPoint in
    block_addInstruction bp op ;;;
    ret (getResultId op).

(** Modelled from the spec: [addDecoration], the decoration facility: it
    records the decoration of [id] and allocates nothing. *)
Definition addDecoration (id : Id) (decoration : Z) : M unit :=
  let dec :=
    addImmediateOperand decoration
      (addIdOperand id (Instruction_newOp OpDecorate)) in
  modify (fun s => set_decorations (decorations s ++ [dec]) s).

(** ** The verified file: emission operations *)

(** [SpirvBuilder::createQuadOp]. *)
Definition createQuadOp (op_code : Op) (type_id : Id)
    (operand1 operand2 operand3 operand4 : Id) : M Id :=
  let* folding := gets generatingOpCodeForSpecConst in
  if (folding : bool) then
    let operands := [operand1; operand2; operand3; operand4] in
    createSpecConstantOp op_code type_id operands []
  else
    let* id := getUniqueId in
    let op := Instruction_new id type_id op_code in
    let op := addIdOperand operand1 op in
    let op := addIdOperand operand2 op in
    let op := addIdOperand operand3 op in
    let op := addIdOperand operand4 op in
    let result := getResultId op in
    let* bp := gets buildPoint in
    block_addInstruction bp op ;;;
    ret result.

(** [SpirvBuilder::createNoContractionUnaryOp]. *)
Definition createNoContractionUnaryOp (op_code : Op) (type_id operand : Id) : M Id :=
  let* result := createUnaryOp op_code type_id operand in
  addDecoration result DecorationNoContraction ;;;
  ret result.

(** [SpirvBuilder::createNoContractionBinOp]. *)
Definition createNoContractionBinOp (op_code : Op) (type_id operand1 operand2 : Id)
    : M Id :=
  let* result := createBinOp op_code type_id operand1 operand2 in
  addDecoration result DecorationNoContraction ;;;
  ret result.

(** [SpirvBuilder::createUnaryBuiltinCall].  [entry_point] is an [int]; it
    is converted to the [unsigned int] parameter of [addImmediateOperand]. *)
Definition createUnaryBuiltinCall (result_type builtins : Id) (entry_point : Z)
    (operand : Id) : M Id :=
  let* id := getUniqueId in
  let instruction := Instruction_new id result_type OpExtInst in
  let instruction := addIdOperand builtins instruction in
  let instruction := addImmediateOperand (wrap32 entry_point) instruction in
  let instruction := addIdOperand operand instruction in
  let result := getResultId instruction in
  let* bp := getBuildPoint in
  block_addInstruction bp instruction ;;;
  ret result.

(** [SpirvBuilder::createBinBuiltinCall]. *)
Definition createBinBuiltinCall (result_type builtins : Id) (entry_point : Z)
    (operand1 operand2 : Id) : M Id :=
  let* id := getUniqueId in
  let instruction := Instruction_new id result_type OpExtInst in
  let instruction := addIdOperand builtins instruction in
  let instruction := addImmediateOperand (wrap32 entry_point) instruction in
  let instruction := addIdOperand operand1 instruction in
  let instruction := addIdOperand operand2 instruction in
  let result := getResultId instruction in
  let* bp := getBuildPoint in
  block_addInstruction bp instruction ;;;
  ret result.

(** [SpirvBuilder::createTriBuiltinCall]. *)
Definition createTriBuiltinCall (result_type builtins : Id) (entry_point : Z)
    (operand1 operand2 operand3 : Id) : M Id :=
  let* id := getUniqueId in
  let instruction := Instruction_new id result_type OpExtInst in
  let instruction := addIdOperand builtins instruction in
  let instruction := addImmediateOperand (wrap32 entry_point) instruction in
  let instruction := addIdOperand operand1 instruction in
  let instruction := addIdOperand operand2 instruction in
  let instruction := addIdOperand operand3 instruction in
  let result := getResultId instruction in
  let* bp := getBuildPoint in
  block_addInstruction bp instruction ;;;
  ret result.

(** ** The verified file: the structured if builder *)

(** The phase of the construct ([Branch] in the class declaration). *)
Inductive Branch : Type := kThen | kElse | kMerge.

Definition Branch_eqb (a b : Branch) : bool :=
  match a, b with
  | kThen, kThen | kElse, kElse | kMerge, kMerge => true
  | _, _ => false
  end.

(** The fields of [SpirvBuilder::IfBuilder].  The reference to the builder
    is the state of the monad; [currentBranch] only exists when assertions
    are compiled in, and is then initialised to [kThen]. *)
Record IfBuilder : Type := mkIfBuilder {
  condition : Id;
  control : Z;
  thenWeight : Z;
  elseWeight : Z;
  function : FunctionPtr;
  headerBlock : BlockPtr;
  thenBlock : BlockPtr;
  elseBlock : option BlockPtr;
  mergeBlock : BlockPtr;
  thenPhiParent : Id;
  elsePhiParent : Id;
  currentBranch : Branch
}.

Definition set_thenPhiParent (v : Id) (ib : IfBuilder) : IfBuilder :=
  mkIfBuilder (condition ib) (control ib) (thenWeight ib) (elseWeight ib)
    (function ib) (headerBlock ib) (thenBlock ib) (elseBlock ib) (mergeBlock ib)
    v (elsePhiParent ib) (currentBranch ib).

Definition set_elsePhiParent (v : Id) (ib : IfBuilder) : IfBuilder :=
  mkIfBuilder (condition ib) (control ib) (thenWeight ib) (elseWeight ib)
    (function ib) (headerBlock ib) (thenBlock ib) (elseBlock ib) (mergeBlock ib)
    (thenPhiParent ib) v (currentBranch ib).

Definition set_elseBlock (v : option BlockPtr) (ib : IfBuilder) : IfBuilder :=
  mkIfBuilder (condition ib) (control ib) (thenWeight ib) (elseWeight ib)
    (function ib) (headerBlock ib) (thenBlock ib) v (mergeBlock ib)
    (thenPhiParent ib) (elsePhiParent ib) (currentBranch ib).

(** The assignments to [currentBranch] are under [#ifndef NDEBUG]. *)
Definition set_currentBranch (NDEBUG : bool) (v : Branch) (ib : IfBuilder) : IfBuilder :=
  if NDEBUG then ib else
  mkIfBuilder (condition ib) (control ib) (thenWeight ib) (elseWeight ib)
    (function ib) (headerBlock ib) (thenBlock ib) (elseBlock ib) (mergeBlock ib)
    (thenPhiParent ib) (elsePhiParent ib) v.

(** [SpirvBuilder::IfBuilder::IfBuilder]. *)
Definition IfBuilder_new (condition : Id) (control thenWeight elseWeight : Z)
    : M IfBuilder :=
  let* bp := getBuildPoint in
  let* function := block_getParent bp in
  let* thenId := getUniqueId in
  let* thenBlock := newBlock thenId function in
  let elseBlock := None in
  let* mergeId := getUniqueId in
  let* mergeBlock := newBlock mergeId function in
  let* headerBlock := getBuildPoint in
  let* headerBlockId := block_getId headerBlock in
  let thenPhiParent := headerBlockId in
  let elsePhiParent := headerBlockId in
  function_addBlock function thenBlock ;;;
  setBuildPoint thenBlock ;;;
  ret (mkIfBuilder condition control thenWeight elseWeight function headerBlock
         thenBlock elseBlock mergeBlock thenPhiParent elsePhiParent kThen).

(** [SpirvBuilder::IfBuilder::makeBeginElse]. *)
Definition makeBeginElse (NDEBUG : bool) (branchToMerge : bool) (ib : IfBuilder)
    : M IfBuilder :=
  (if NDEBUG then ret tt
   else assert_true NDEBUG (Branch_eqb (currentBranch ib) kThen)) ;;;
  let* ib :=
    if branchToMerge then
      let* bp := getBuildPoint in
      let* bpId := block_getId bp in
      let ib := set_thenPhiParent bpId ib in
      createBranch (mergeBlock ib) ;;;
      ret ib
    else ret ib in
  let* elseId := getUniqueId in
  let* elseBlock := newBlock elseId (function ib) in
  let ib := set_elseBlock (Some elseBlock) ib in
  function_addBlock (function ib) elseBlock ;;;
  setBuildPoint elseBlock ;;;
  ret (set_currentBranch NDEBUG kElse ib).

(** [SpirvBuilder::IfBuilder::makeEndIf]. *)
Definition makeEndIf (NDEBUG : bool) (branchToMerge : bool) (ib : IfBuilder)
    : M IfBuilder :=
  (if NDEBUG then ret tt
   else assert_true NDEBUG (Branch_eqb (currentBranch ib) kThen
                            || Branch_eqb (currentBranch ib) kElse)) ;;;
  let* ib :=
    if branchToMerge then
      let* bp := getBuildPoint in
      let* bpId := block_getId bp in
      let ib := match elseBlock ib with
                | Some _ => set_elsePhiParent bpId ib
                | None => set_thenPhiParent bpId ib
                end in
      createBranch (mergeBlock ib) ;;;
      ret ib
    else ret ib in
  setBuildPoint (headerBlock ib) ;;;
  createSelectionMerge (mergeBlock ib) (control ib) ;;;
  let falseBlock := match elseBlock ib with
                    | Some e => e
                    | None => mergeBlock ib
                    end in
  let branch := Instruction_newOp OpBranchConditional in
  let branch := addIdOperand (condition ib) branch in
  let* thenId := block_getId (thenBlock ib) in
  let branch := addIdOperand thenId branch in
  let* falseId := block_getId falseBlock in
  let branch := addIdOperand falseId branch in
  let branch :=
    if negb (thenWeight ib =? 0)%Z || negb (elseWeight ib =? 0)%Z then
      addImmediateOperand (elseWeight ib)
        (addImmediateOperand (thenWeight ib) branch)
    else branch in
  let* bp := getBuildPoint in
  block_addInstruction bp branch ;;;
  let* bp := getBuildPoint in
  block_addPredecessor (thenBlock ib) bp ;;;
  let* bp := getBuildPoint in
  block_addPredecessor falseBlock bp ;;;
  function_addBlock (function ib) (mergeBlock ib) ;;;
  setBuildPoint (mergeBlock ib) ;;;
  ret (set_currentBranch NDEBUG kMerge ib).

(** [SpirvBuilder::IfBuilder::createMergePhi].  The type-id table of the
    module is an external collaborator: [getTypeId] reads the declared type
    of an id out of the builder state. *)
Definition createMergePhi (getTypeId : Builder -> Id -> Id) (NDEBUG : bool)
    (then_variable else_variable : Id) (ib : IfBuilder) : M Id :=
  let* bp := getBuildPoint in
  assert_true NDEBUG (bp =? mergeBlock ib)%nat ;;;
  let* type_id := gets (fun s => getTypeId s then_variable) in
  createQuadOp OpPhi type_id then_variable (thenPhiParent ib) else_variable
               (elsePhiParent ib).

(** ** Vocabulary of the statements *)

(** The emission operations of the verified file, as one call. *)
Inductive Emission : Type :=
  | QuadOp (op_code : Op) (type_id operand1 operand2 operand3 operand4 : Id)
  | NoContractionUnaryOp (op_code : Op) (type_id operand : Id)
  | NoContractionBinOp (op_code : Op) (type_id operand1 operand2 : Id)
  | UnaryBuiltinCall (result_type builtins : Id) (entry_point : Z) (operand : Id)
  | BinBuiltinCall (result_type builtins : Id) (entry_point : Z)
                   (operand1 operand2 : Id)
  | TriBuiltinCall (result_type builtins : Id) (entry_point : Z)
                   (operand1 operand2 operand3 : Id).

Definition emit (e : Emission) : M Id :=
  match e with
  | QuadOp op ty o1 o2 o3 o4 => createQuadOp op ty o1 o2 o3 o4
  | NoContractionUnaryOp op ty o => createNoContractionUnaryOp op ty o
  | NoContractionBinOp op ty o1 o2 => createNoContractionBinOp op ty o1 o2
  | UnaryBuiltinCall ty b ep o => createUnaryBuiltinCall ty b ep o
  | BinBuiltinCall ty b ep o1 o2 => createBinBuiltinCall ty b ep o1 o2
  | TriBuiltinCall ty b ep o1 o2 o3 => createTriBuiltinCall ty b ep o1 o2 o3
  end.

(** A sequence of emission calls, as the caller issues them inside a region. *)
Fixpoint emitAll (es : list Emission) : M unit :=
  match es with
  | [] => ret tt
  | e :: es => emit e ;;; emitAll es
  end.

(** Reading the identity, the owner and the instruction count of the block a
    pointer designates. *)
Definition blockIdAt (h : list Block) (p : BlockPtr) : Id :=
  from_option blockId NoResult (h !! p).

Definition parentAt (h : list Block) (p : BlockPtr) : FunctionPtr :=
  from_option parent 0 (h !! p).

Definition instructionsAt (h : list Block) (p : BlockPtr)
    : option (list Instruction) :=
  instructions <$> h !! p.

Definition instructionCount (s : Builder) (p : BlockPtr) : option nat :=
  (fun b => length (instructions b)) <$> blockHeap s !! p.

(** Straight-line code: between [s] and [s'] the caller appended [code] to
    the block at the build point and changed neither the build point, nor
    any other block, nor the block lists of the functions.  Ids, constants,
    decorations and the mode flag may have changed freely.  The emission
    operations of the file are of this kind ([emit_emits] below); a nested
    construct is not, since it moves the build point and adds blocks. *)
Definition Block_addInstructions (code : list Instruction) (b : Block) : Block :=
  mkBlock (blockId b) (parent b) (instructions b ++ code) (predecessors b).

Definition emits (s s' : Builder) (code : list Instruction) : Prop :=
  buildPoint s' = buildPoint s /\
  functionHeap s' = functionHeap s /\
  blockHeap s' = alter (Block_addInstructions code) (buildPoint s) (blockHeap s).

(** The pointers of an [IfBuilder] designate objects. *)
Definition IfBuilder_valid (ib : IfBuilder) (s : Builder) : Prop :=
  headerBlock ib < length (blockHeap s) /\
  thenBlock ib < length (blockHeap s) /\
  mergeBlock ib < length (blockHeap s) /\
  (forall e, elseBlock ib = Some e -> e < length (blockHeap s)) /\
  function ib < length (functionHeap s).

(** The instructions the builder appends to close a construct. *)
Definition branchTo (target : Id) : Instruction :=
  mkInstruction NoResult NoType OpBranch [IdOperand target].

Definition selectionMerge (merge : Id) (control : Z) : Instruction :=
  mkInstruction NoResult NoType OpSelectionMerge
                [IdOperand merge; ImmediateOperand control].

Definition branchConditional (condition trueTarget falseTarget : Id)
    (weights : list Operand) : Instruction :=
  mkInstruction NoResult NoType OpBranchConditional
    ([IdOperand condition; IdOperand trueTarget; IdOperand falseTarget] ++ weights).


(** The order of the phases. *)
Definition Branch_rank (b : Branch) : nat :=
  match b with kThen => 0 | kElse => 1 | kMerge => 2 end.

(** A small emitter state used to run the operations: one function (id 1)
    holding one block (id 2), which is the build point; ten ids in use. *)
Definition exampleBuilder : Builder :=
  mkBuilder 10%Z 0 false [mkBlock 2%Z 0 [] []] [mkFunction 1%Z [0]] [] [].

(** The same state in spec-constant mode. *)
Definition exampleFolding : Builder :=
  mkBuilder 10%Z 0 true [mkBlock 2%Z 0 [] []] [mkFunction 1%Z [0]] [] [].

(** A type-id table for the examples: every id has type 3. *)
Definition exampleTypes (s : Builder) (id : Id) : Id := 3%Z.

(** * The primitive converter of the Direct3D 12 back end

    A shallow embedding of [src/xenia/gpu/d3d12/primitive_converter.cc].
    What the file takes from the rest of the emulator is an interface: the
    byte swap of the guest GPU, the two registers it reads, and the upload
    buffer pool it allocates from. *)
Module d3d12.

(** The primitive types the file names; every other type of the guest
    enumeration behaves alike here and is [kOtherPrimitive]. *)
Inductive PrimitiveType : Type :=
  | kLineStrip
  | kTriangleList
  | kTriangleFan
  | kTriangleStrip
  | kLineLoop
  | kOtherPrimitive (code : Z).

Definition PrimitiveType_eqb (a b : PrimitiveType) : bool :=
  match a, b with
  | kLineStrip, kLineStrip | kTriangleList, kTriangleList
  | kTriangleFan, kTriangleFan | kTriangleStrip, kTriangleStrip
  | kLineLoop, kLineLoop => true
  | kOtherPrimitive c, kOtherPrimitive d => (c =? d)%Z
  | _, _ => false
  end.

Inductive IndexFormat : Type := kInt16 | kInt32.

Definition isInt32 (format : IndexFormat) : bool :=
  match format with kInt32 => true | kInt16 => false end.

(** [sizeof(uint32_t)] or [sizeof(uint16_t)], by index format. *)
Definition indexSize (format : IndexFormat) : Z :=
  if isInt32 format then 4%Z else 2%Z.

Inductive ConversionResult : Type :=
  | kConverted
  | kConversionNotNeeded
  | kPrimitiveEmpty
  | kFailed.

(** [uint64_t] arithmetic of [D3D12_GPU_VIRTUAL_ADDRESS]. *)
Definition wrap64 (z : Z) : Z := (z mod 2 ^ 64)%Z.

(** What the file uses and does not define: the endianness type and the
    swap [xenos::GpuSwap], the indices of the two registers it reads, and the
    upload buffer pool with its request for [size] bytes, which answers with
    the host mapping and the GPU address of the bytes, or with nothing. *)
Class Platform : Type := {
  Endian : Type;
  GpuSwap : Z -> Endian -> Z;
  XE_GPU_REG_PA_SU_SC_MODE_CNTL : Z;
  XE_GPU_REG_VGT_MULTI_PRIM_IB_RESET_INDX : Z;
  UploadBufferPool : Type;
  RequestFull : UploadBufferPool -> Z -> option (Z * Z) * UploadBufferPool
}.

(** [xe::align] of [xenia/base/math.h], on [uint32_t]: the value rounded up
    to the power-of-two alignment ("16-align all index data"). *)
Definition align (value alignment : Z) : Z :=
  Z.land (wrap32 (value + alignment - 1))
         (wrap32 (Z.lnot (alignment - 1))).

(** The register file, by register index, and the guest memory as the file
    reads it: the 16-bit and the 32-bit elements found at a translated
    physical address. *)
Record Memory : Type := mkMemory {
  source_16 : Z -> Z -> Z;
  source_32 : Z -> Z -> Z
}.

(** The members of [PrimitiveConverter] the conversion uses. *)
Record PrimitiveConverter `{Platform} : Type := mkPrimitiveConverter {
  register_file_ : Z -> Z;
  memory_ : Memory;
  buffer_pool_ : UploadBufferPool
}.

Arguments mkPrimitiveConverter {_} _ _ _.

(** [PrimitiveConverter::GetReplacementPrimitiveType]. *)
Definition GetReplacementPrimitiveType (type : PrimitiveType) : PrimitiveType :=
  if PrimitiveType_eqb type kTriangleFan then kTriangleList else type.

(** [PrimitiveConverter::AllocateIndices].  The result is the pointer
    returned ([None] for [nullptr]), the value of [gpu_address_out] after the
    call and the pool after the call. *)
Definition AllocateIndices `{Platform} (pool : UploadBufferPool)
    (format : IndexFormat) (count simd_offset : Z) (gpu_address_out : Z)
    : option Z * Z * UploadBufferPool :=
  if (count =? 0)%Z then (None, gpu_address_out, pool)
  else
    let size := wrap32 (count * indexSize format) in
    let size := align size 16 in
    let simd_offset := Z.land simd_offset 15 in
    let size := if negb (simd_offset =? 0)%Z then wrap32 (size + 16) else size in
    match RequestFull pool size with
    | (None, pool) => (None, gpu_address_out, pool)
    | (Some (mapping, gpu_address), pool) =>
        (Some (mapping + simd_offset)%Z, wrap64 (gpu_address + simd_offset), pool)
    end.

(** The loop [for (i = 2; i < index_count; ++i)] of the fan conversion, with
    [remaining] iterations to go: each one stores three elements of [width]
    bytes at [target] and advances it.  The stores are listed in program
    order as (host address, value). *)
Fixpoint fanLoop (source : Z -> Z) (width : Z) (remaining : nat) (i target : Z)
    : list (Z * Z) :=
  match remaining with
  | O => []
  | S remaining =>
      (target, source i)
        :: (target + width, source (i - 1))%Z
        :: (target + 2 * width, source 0)%Z
        :: fanLoop source width remaining (i + 1)%Z (target + 3 * width)%Z
  end.

(** What a call of [ConvertPrimitives] leaves behind: the result, the two
    output parameters, the converter and the stores into the upload
    buffer. *)
Record Conversion `{Platform} : Type := mkConversion {
  result : ConversionResult;
  gpu_address_out : Z;
  index_count_out : Z;
  converter : PrimitiveConverter;
  stores : list (Z * Z)
}.

Arguments mkConversion {_} _ _ _ _ _.

(** The primitive-reset enable bit of the mode register, as
    [ConvertPrimitives] reads it, and the source indices it reads: the
    elements of the width of the index format at the translated address. *)
Definition resetEnabled `{Platform} (this : PrimitiveConverter) : bool :=
  negb (Z.land (register_file_ this XE_GPU_REG_PA_SU_SC_MODE_CNTL)
               (Z.shiftl 1 21) =? 0)%Z.

Definition sourceIndices `{Platform} (this : PrimitiveConverter)
    (format : IndexFormat) (address : Z) : Z -> Z :=
  if isInt32 format then source_32 (memory_ this) address
  else source_16 (memory_ this) address.

(** [PrimitiveConverter::ConvertPrimitives].  [gpu_address_out] and
    [index_count_out] are passed by reference: they come in with the values
    the caller's variables hold. *)
Definition ConvertPrimitives `{Platform} (this : PrimitiveConverter)
    (source_type : PrimitiveType) (address index_count : Z)
    (index_format : IndexFormat) (index_endianness : Endian)
    (gpu_address_out index_count_out : Z) : Conversion :=
  let regs := register_file_ this in
  let reset :=
    negb (Z.land (regs XE_GPU_REG_PA_SU_SC_MODE_CNTL) (Z.shiftl 1 21) =? 0)%Z in
  let reset_index :=
    GpuSwap (regs XE_GPU_REG_VGT_MULTI_PRIM_IB_RESET_INDX) index_endianness in
  let reset_index_host := if isInt32 index_format then 4294967295%Z else 65535%Z in
  let unchanged (r : ConversionResult) :=
    mkConversion r gpu_address_out index_count_out this [] in
  if negb (PrimitiveType_eqb source_type kTriangleFan) then
    if negb reset || (reset_index =? reset_index_host)%Z then
      unchanged kConversionNotNeeded
    else if negb (PrimitiveType_eqb source_type kTriangleStrip)
            || negb (PrimitiveType_eqb source_type kLineStrip) then
      unchanged kConversionNotNeeded
    else unchanged kConversionNotNeeded
  else
  if (PrimitiveType_eqb source_type kTriangleFan
      || PrimitiveType_eqb source_type kTriangleStrip)
     && (index_count <? 3)%Z then
    unchanged kPrimitiveEmpty
  else
  if negb (PrimitiveType_eqb source_type kTriangleFan
           || PrimitiveType_eqb source_type kTriangleStrip)
     && (PrimitiveType_eqb source_type kLineStrip
         || PrimitiveType_eqb source_type kLineLoop)
     && (index_count <? 2)%Z then
    unchanged kPrimitiveEmpty
  else
  let simd := false in
  let fan := PrimitiveType_eqb source_type kTriangleFan in
  if fan && reset then unchanged kFailed
  else
  let converted_index_count :=
    if fan then wrap32 (3 * wrap32 (index_count - 2)) else 0%Z in
  match AllocateIndices (buffer_pool_ this) index_format index_count
          (if simd then Z.land address 15 else 0%Z) 0%Z with
  | (None, _, pool) =>
      mkConversion kFailed gpu_address_out index_count_out
        (mkPrimitiveConverter (register_file_ this) (memory_ this) pool) []
  | (Some target, gpu_address, pool) =>
      let this' :=
        mkPrimitiveConverter (register_file_ this) (memory_ this) pool in
      if fan && reset then
        mkConversion kFailed gpu_address_out index_count_out this' []
      else
        let written :=
          if fan then
            if isInt32 index_format then
              fanLoop (source_32 (memory_ this) address) 4
                      (Z.to_nat (index_count - 2)) 2 target
            else
              fanLoop (source_16 (memory_ this) address) 2
                      (Z.to_nat (index_count - 2)) 2 target
          else [] in
        mkConversion kConverted gpu_address converted_index_count this' written
  end.

End d3d12.

(** A platform to run the conversion on: no byte swap, and a pool of one
    4096-byte page mapped at host address 65536 and GPU address 1048576,
    which hands out consecutive bytes (the pool state is the number of bytes
    in use) and answers with nothing when the page is full. *)
Definition examplePlatform : d3d12.Platform :=
  {| d3d12.Endian := unit;
     d3d12.GpuSwap := fun value _ => value;
     d3d12.XE_GPU_REG_PA_SU_SC_MODE_CNTL := 8709%Z;
     d3d12.XE_GPU_REG_VGT_MULTI_PRIM_IB_RESET_INDX := 8451%Z;
     d3d12.UploadBufferPool := Z;
     d3d12.RequestFull := fun used size =>
       if (used + size <=? 4096)%Z
       then (Some (65536 + used, 1048576 + used)%Z, (used + size)%Z)
       else (None, used) |}.

(** A converter on that platform: primitive reset disabled, an empty pool,
    and guest memory whose index [i] at any address is [100 + i]. *)
Definition exampleConverter : @d3d12.PrimitiveConverter examplePlatform :=
  @d3d12.mkPrimitiveConverter examplePlatform
    (fun _ => 0%Z)
    (d3d12.mkMemory (fun _ i => (100 + i)%Z) (fun _ i => (100 + i)%Z))
    0%Z.

(** The same converter with primitive reset enabled (bit 21 of the mode
    register) and reset index 4660. *)
Definition exampleResetConverter : @d3d12.PrimitiveConverter examplePlatform :=
  @d3d12.mkPrimitiveConverter examplePlatform
    (fun r => if (r =? 8709)%Z then 2097152%Z else 4660%Z)
    (d3d12.mkMemory (fun _ i => (100 + i)%Z) (fun _ i => (100 + i)%Z))
    0%Z.

(** The converter of [exampleConverter] with 4090 bytes of the page in use. *)
Definition exampleFullConverter : @d3d12.PrimitiveConverter examplePlatform :=
  @d3d12.mkPrimitiveConverter examplePlatform
    (fun _ => 0%Z)
    (d3d12.mkMemory (fun _ i => (100 + i)%Z) (fun _ i => (100 + i)%Z))
    4090%Z.

(** ** Vocabulary of the further statements about the builder *)

(** Whether an emission call appends an instruction to the build point in
    the given mode, and whether it records a decoration. *)
Definition appendsInstruction (folding : bool) (e : Emission) : bool :=
  match e with
  | QuadOp _ _ _ _ _ _ | NoContractionUnaryOp _ _ _
  | NoContractionBinOp _ _ _ _ => negb folding
  | UnaryBuiltinCall _ _ _ _ | BinBuiltinCall _ _ _ _ _
  | TriBuiltinCall _ _ _ _ _ _ => true
  end.

Definition decorates (e : Emission) : bool :=
  match e with
  | NoContractionUnaryOp _ _ _ | NoContractionBinOp _ _ _ _ => true
  | _ => false
  end.

(** The predecessors of the block a pointer designates. *)
Definition predecessorsAt (h : list Block) (p : BlockPtr)
    : option (list BlockPtr) :=
  predecessors <$> h !! p.

(** The block list of the function a pointer designates. *)
Definition blocksAt (fs : list Function) (f : FunctionPtr)
    : option (list BlockPtr) :=
  blocks <$> fs !! f.

(** The shape of a construct closed around a construct nested in its
    then-region, both without else: [outer] was opened at the header, [code1]
    emitted, [inner] opened, [code2] emitted, [inner] closed, [code3]
    emitted, [outer] closed. *)
Definition nested_if (s : Builder) (outer inner : IfBuilder)
    (blocks0 : list BlockPtr) (header0 code1 code2 code3 : list Instruction)
    : Prop :=
  exists f hb ot it im om weights1 weights2,
    functionHeap s !! function outer = Some f /\
    blockHeap s !! headerBlock outer = Some hb /\
    blockHeap s !! thenBlock outer = Some ot /\
    blockHeap s !! thenBlock inner = Some it /\
    blockHeap s !! mergeBlock inner = Some im /\
    blockHeap s !! mergeBlock outer = Some om /\
    function inner = function outer /\
    headerBlock inner = thenBlock outer /\
    buildPoint s = mergeBlock outer /\
    blocks f = blocks0 ++ [thenBlock outer; thenBlock inner; mergeBlock inner;
                           mergeBlock outer] /\
    instructions hb
    = header0 ++ [selectionMerge (blockId om) (control outer);
                  branchConditional (condition outer) (blockId ot) (blockId om)
                    weights1] /\
    instructions ot
    = code1 ++ [selectionMerge (blockId im) (control inner);
                branchConditional (condition inner) (blockId it) (blockId im)
                  weights2] /\
    instructions it = code2 ++ [branchTo (blockId im)] /\
    instructions im = code3 ++ [branchTo (blockId om)] /\
    instructions om = [] /\
    predecessors ot = [headerBlock outer] /\
    predecessors it = [thenBlock outer] /\
    predecessors im = [thenBlock inner; thenBlock outer] /\
    predecessors om = [mergeBlock inner; headerBlock outer] /\
    thenPhiParent inner = blockId it /\
    elsePhiParent inner = blockId ot /\
    thenPhiParent outer = blockId im /\
    elsePhiParent outer = blockId hb.

(** * Reasoning about the builder monad *)

Lemma bind_Ok {A B} (m : M A) (k : A -> M B) s a s' :
  m s = Ok (a, s') -> bind m k s = k a s'.
Proof. intros H. unfold bind. now rewrite H. Qed.

Lemma bind_inv {A B} (m : M A) (k : A -> M B) s r :
  bind m k s = Ok r -> exists a s', m s = Ok (a, s') /\ k a s' = Ok r.
Proof.
  unfold bind. destruct (m s) as [[a s']| |]; [eauto | discriminate..].
Qed.

Lemma Ok_inv {A} (a a' : A) (s s' : Builder) :
  @Ok (A * Builder) (a, s) = Ok (a', s') -> a' = a /\ s' = s.
Proof. intros H. now inversion H. Qed.

Lemma wrap32_small z : (0 <= z < 2 ^ 32)%Z -> wrap32 z = z.
Proof. intros H. unfold wrap32. now apply Z.mod_small. Qed.

(** ** Pointers *)

Lemma derefBlock_inv p s b s' :
  derefBlock p s = Ok (b, s') -> s' = s /\ blockHeap s !! p = Some b.
Proof.
  unfold derefBlock. destruct (blockHeap s !! p); [|discriminate].
  intros H. now inversion H.
Qed.

Lemma block_getId_Ok p s :
  p < length (blockHeap s) -> block_getId p s = Ok (blockIdAt (blockHeap s) p, s).
Proof.
  intros H. apply lookup_lt_is_Some_2 in H as [b Hb].
  unfold block_getId, bind, derefBlock, blockIdAt. now rewrite Hb.
Qed.

Lemma block_getId_inv p s i s' :
  block_getId p s = Ok (i, s') ->
  s' = s /\ i = blockIdAt (blockHeap s) p /\ p < length (blockHeap s).
Proof.
  unfold block_getId. intros H. apply bind_inv in H as (b & s1 & H1 & H2).
  apply derefBlock_inv in H1 as [-> Hb]. apply Ok_inv in H2 as [-> ->].
  unfold blockIdAt. rewrite Hb. split; [done|]. split; [done|].
  now apply lookup_lt_Some in Hb.
Qed.

Lemma block_getParent_Ok p s :
  p < length (blockHeap s) ->
  block_getParent p s = Ok (parentAt (blockHeap s) p, s).
Proof.
  intros H. apply lookup_lt_is_Some_2 in H as [b Hb].
  unfold block_getParent, bind, derefBlock, parentAt. now rewrite Hb.
Qed.

Lemma block_getParent_inv p s f s' :
  block_getParent p s = Ok (f, s') ->
  s' = s /\ f = parentAt (blockHeap s) p /\ p < length (blockHeap s).
Proof.
  unfold block_getParent. intros H. apply bind_inv in H as (b & s1 & H1 & H2).
  apply derefBlock_inv in H1 as [-> Hb]. apply Ok_inv in H2 as [-> ->].
  unfold parentAt. rewrite Hb. split; [done|]. split; [done|].
  now apply lookup_lt_Some in Hb.
Qed.

Lemma updateBlock_Ok p f s :
  p < length (blockHeap s) ->
  updateBlock p f s = Ok (tt, set_blockHeap (alter f p (blockHeap s)) s).
Proof.
  intros H. apply lookup_lt_is_Some_2 in H as [b Hb].
  unfold updateBlock, bind, derefBlock. now rewrite Hb.
Qed.

Lemma updateBlock_inv p f s u s' :
  updateBlock p f s = Ok (u, s') ->
  s' = set_blockHeap (alter f p (blockHeap s)) s /\ p < length (blockHeap s).
Proof.
  unfold updateBlock. intros H. apply bind_inv in H as (b & s1 & H1 & H2).
  apply derefBlock_inv in H1 as [-> Hb]. apply Ok_inv in H2 as [_ ->].
  split; [done|]. now apply lookup_lt_Some in Hb.
Qed.

Lemma updateFunction_Ok p g s :
  p < length (functionHeap s) ->
  updateFunction p g s = Ok (tt, set_functionHeap (alter g p (functionHeap s)) s).
Proof.
  intros H. apply lookup_lt_is_Some_2 in H as [f Hf].
  unfold updateFunction, bind, derefFunction. now rewrite Hf.
Qed.

Lemma updateFunction_inv p g s u s' :
  updateFunction p g s = Ok (u, s') ->
  s' = set_functionHeap (alter g p (functionHeap s)) s /\
  p < length (functionHeap s).
Proof.
  unfold updateFunction, bind, derefFunction.
  destruct (functionHeap s !! p) as [f|] eqn:Hf; [|discriminate].
  intros H. apply Ok_inv in H as [_ ->].
  split; [done|]. now apply lookup_lt_Some in Hf.
Qed.

Lemma alter_insert_lookup {A} (f : A -> A) (l : list A) i x :
  l !! i = Some x -> alter f i l = <[i := f x]> l.
Proof.
  revert i. induction l as [|y l IH]; intros [|i] H; simplify_eq/=; try done.
  f_equal. now apply IH.
Qed.

(** ** Symbolic execution

    [run] proves [m s = Ok (a, s')] by executing [m] from [s], leaving [a]
    and [s'] to be computed when they are not given; [invM] goes the other
    way, from a returning call to the state it returns. *)

Ltac proj_simpl :=
  cbn [uniqueId buildPoint generatingOpCodeForSpecConst blockHeap functionHeap
       constantsTypesGlobals decorations
       set_uniqueId set_buildPoint set_blockHeap set_functionHeap
       set_constantsTypesGlobals set_decorations
       condition control thenWeight elseWeight function headerBlock thenBlock
       elseBlock mergeBlock thenPhiParent elsePhiParent currentBranch
       set_thenPhiParent set_elsePhiParent set_elseBlock set_currentBranch
       getResultId resultId fst snd].

Ltac proj_simpl_in H :=
  cbn [uniqueId buildPoint generatingOpCodeForSpecConst blockHeap functionHeap
       constantsTypesGlobals decorations
       set_uniqueId set_buildPoint set_blockHeap set_functionHeap
       set_constantsTypesGlobals set_decorations
       condition control thenWeight elseWeight function headerBlock thenBlock
       elseBlock mergeBlock thenPhiParent elsePhiParent currentBranch
       set_thenPhiParent set_elsePhiParent set_elseBlock set_currentBranch
       getResultId resultId fst snd] in H.

Ltac heap_bound :=
  proj_simpl; rewrite ?length_alter, ?length_app; cbn [length]; lia.

Ltac run :=
  cbv beta zeta; proj_simpl;
  lazymatch goal with
  | |- bind _ _ _ = _ => etransitivity; [ eapply bind_Ok; run | run ]
  | |- ret _ _ = _ => reflexivity
  | |- gets _ _ = _ => reflexivity
  | |- modify _ _ = _ => reflexivity
  | |- getBuildPoint _ = _ => reflexivity
  | |- setBuildPoint _ _ = _ => reflexivity
  | |- getUniqueId _ = _ => reflexivity
  | |- newBlock _ _ _ = _ => reflexivity
  | |- addDecoration _ _ _ = _ => reflexivity
  | |- block_getId _ _ = _ => apply block_getId_Ok; heap_bound
  | |- block_getParent _ _ = _ => apply block_getParent_Ok; heap_bound
  | |- block_addInstruction _ _ _ = _ => apply updateBlock_Ok; heap_bound
  | |- block_addPredecessor _ _ _ = _ => apply updateBlock_Ok; heap_bound
  | |- function_addBlock _ _ _ = _ => apply updateFunction_Ok; heap_bound
  | |- createBranch _ _ = _ => unfold createBranch; run
  | |- createSelectionMerge _ _ _ = _ => unfold createSelectionMerge; run
  | |- createSpecConstantOp _ _ _ _ _ = _ => unfold createSpecConstantOp; run
  | |- _ => idtac
  end.

Ltac invM H :=
  cbv beta zeta in H; proj_simpl_in H;
  lazymatch type of H with
  | bind _ _ _ = Ok _ =>
      let a := fresh "a" in
      let s := fresh "s" in
      let H1 := fresh "H" in
      apply bind_inv in H as (a & s & H1 & H); invM H1; invM H
  | ret _ _ = Ok _ => apply Ok_inv in H as [? ?]; subst
  | gets _ _ = Ok _ => apply Ok_inv in H as [? ?]; subst
  | modify _ _ = Ok _ => apply Ok_inv in H as [? ?]; subst
  | getBuildPoint _ = Ok _ => apply Ok_inv in H as [? ?]; subst
  | setBuildPoint _ _ = Ok _ => apply Ok_inv in H as [? ?]; subst
  | getUniqueId _ = Ok _ => apply Ok_inv in H as [? ?]; subst
  | newBlock _ _ _ = Ok _ => apply Ok_inv in H as [? ?]; subst
  | block_getId _ _ = Ok _ =>
      let Hp := fresh "Hvalid" in
      apply block_getId_inv in H as (? & ? & Hp); subst;
      proj_simpl_in Hp; rewrite ?length_alter, ?length_app in Hp;
      cbn [length] in Hp
  | block_getParent _ _ = Ok _ =>
      let Hp := fresh "Hvalid" in
      apply block_getParent_inv in H as (? & ? & Hp); subst;
      proj_simpl_in Hp; rewrite ?length_alter, ?length_app in Hp;
      cbn [length] in Hp
  | block_addInstruction _ _ _ = Ok _ =>
      let Hp := fresh "Hvalid" in
      apply updateBlock_inv in H as (? & Hp); subst;
      proj_simpl_in Hp; rewrite ?length_alter, ?length_app in Hp;
      cbn [length] in Hp
  | block_addPredecessor _ _ _ = Ok _ =>
      let Hp := fresh "Hvalid" in
      apply updateBlock_inv in H as (? & Hp); subst;
      proj_simpl_in Hp; rewrite ?length_alter, ?length_app in Hp;
      cbn [length] in Hp
  | function_addBlock _ _ _ = Ok _ =>
      let Hp := fresh "Hvalid" in
      apply updateFunction_inv in H as (? & Hp); subst;
      proj_simpl_in Hp; rewrite ?length_alter, ?length_app in Hp;
      cbn [length] in Hp
  | createBranch _ _ = Ok _ => unfold createBranch in H; invM H
  | createSelectionMerge _ _ _ = Ok _ => unfold createSelectionMerge in H; invM H
  | _ => idtac
  end.

(** [call_result a s c] runs the closed call [c] and names the value and the
    state it returns. *)
Ltac call_result a s c :=
  let r := eval cbv in c in
  lazymatch r with
  | Ok (?x, ?y) => pose (a := x); pose (s := y)
  end.

(** ** The emission operations in closed form *)

Lemma createSpecConstantOp_Ok op ty ops literals s :
  let id := wrap32 (uniqueId s + 1) in
  createSpecConstantOp op ty ops literals s
  = Ok (id, set_constantsTypesGlobals
              (constantsTypesGlobals s ++
                 [mkInstruction id ty OpSpecConstantOp
                    (ImmediateOperand op :: map IdOperand ops
                       ++ map ImmediateOperand literals)])
              (set_uniqueId id s)).
Proof.
  intros id. unfold createSpecConstantOp.
  assert (Hid : forall l i,
    fold_left (fun i o => addIdOperand o i) l i
    = mkInstruction (resultId i) (typeId i) (opCode i)
        (operands i ++ map IdOperand l)).
  { induction l as [|o l IH]; intros [r t c os]; cbn.
    - now rewrite app_nil_r.
    - rewrite IH. cbn. now rewrite <- app_assoc. }
  assert (Himm : forall l i,
    fold_left (fun i o => addImmediateOperand o i) l i
    = mkInstruction (resultId i) (typeId i) (opCode i)
        (operands i ++ map ImmediateOperand l)).
  { induction l as [|o l IH]; intros [r t c os]; cbn.
    - now rewrite app_nil_r.
    - rewrite IH. cbn. now rewrite <- app_assoc. }
  unfold bind, getUniqueId, modify, ret. cbn.
  rewrite Himm, Hid. cbn. reflexivity.
Qed.

Lemma createQuadOp_folding op ty o1 o2 o3 o4 s :
  generatingOpCodeForSpecConst s = true ->
  let id := wrap32 (uniqueId s + 1) in
  createQuadOp op ty o1 o2 o3 o4 s
  = Ok (id, set_constantsTypesGlobals
              (constantsTypesGlobals s ++
                 [mkInstruction id ty OpSpecConstantOp
                    [ImmediateOperand op; IdOperand o1; IdOperand o2;
                     IdOperand o3; IdOperand o4]])
              (set_uniqueId id s)).
Proof.
  intros Hmode id. unfold createQuadOp.
  rewrite (bind_Ok _ _ s true s) by (unfold gets; now rewrite Hmode).
  apply createSpecConstantOp_Ok.
Qed.

Lemma createQuadOp_runtime op ty o1 o2 o3 o4 s :
  generatingOpCodeForSpecConst s = false ->
  buildPoint s < length (blockHeap s) ->
  let id := wrap32 (uniqueId s + 1) in
  createQuadOp op ty o1 o2 o3 o4 s
  = Ok (id, set_blockHeap
              (alter (Block_addInstruction
                        (mkInstruction id ty op
                           [IdOperand o1; IdOperand o2; IdOperand o3; IdOperand o4]))
                     (buildPoint s) (blockHeap s))
              (set_uniqueId id s)).
Proof.
  intros Hmode Hbp id. unfold createQuadOp.
  rewrite (bind_Ok _ _ s false s) by (unfold gets; now rewrite Hmode).
  run.
Qed.

Lemma createUnaryBuiltinCall_Ok ty builtins ep o s :
  buildPoint s < length (blockHeap s) ->
  let id := wrap32 (uniqueId s + 1) in
  createUnaryBuiltinCall ty builtins ep o s
  = Ok (id, set_blockHeap
              (alter (Block_addInstruction
                        (mkInstruction id ty OpExtInst
                           [IdOperand builtins; ImmediateOperand (wrap32 ep);
                            IdOperand o]))
                     (buildPoint s) (blockHeap s))
              (set_uniqueId id s)).
Proof. intros Hbp id. unfold createUnaryBuiltinCall. run. Qed.

Lemma createBinBuiltinCall_Ok ty builtins ep o1 o2 s :
  buildPoint s < length (blockHeap s) ->
  let id := wrap32 (uniqueId s + 1) in
  createBinBuiltinCall ty builtins ep o1 o2 s
  = Ok (id, set_blockHeap
              (alter (Block_addInstruction
                        (mkInstruction id ty OpExtInst
                           [IdOperand builtins; ImmediateOperand (wrap32 ep);
                            IdOperand o1; IdOperand o2]))
                     (buildPoint s) (blockHeap s))
              (set_uniqueId id s)).
Proof. intros Hbp id. unfold createBinBuiltinCall. run. Qed.

Lemma createTriBuiltinCall_Ok ty builtins ep o1 o2 o3 s :
  buildPoint s < length (blockHeap s) ->
  let id := wrap32 (uniqueId s + 1) in
  createTriBuiltinCall ty builtins ep o1 o2 o3 s
  = Ok (id, set_blockHeap
              (alter (Block_addInstruction
                        (mkInstruction id ty OpExtInst
                           [IdOperand builtins; ImmediateOperand (wrap32 ep);
                            IdOperand o1; IdOperand o2; IdOperand o3]))
                     (buildPoint s) (blockHeap s))
              (set_uniqueId id s)).
Proof. intros Hbp id. unfold createTriBuiltinCall. run. Qed.

Lemma createUnaryOp_Ok op ty o s :
  buildPoint s < length (blockHeap s) ->
  let id := wrap32 (uniqueId s + 1) in
  createUnaryOp op ty o s
  = Ok (id,
        if generatingOpCodeForSpecConst s then
          set_constantsTypesGlobals
            (constantsTypesGlobals s ++
               [mkInstruction id ty OpSpecConstantOp
                  [ImmediateOperand op; IdOperand o]])
            (set_uniqueId id s)
        else
          set_blockHeap
            (alter (Block_addInstruction (mkInstruction id ty op [IdOperand o]))
                   (buildPoint s) (blockHeap s))
            (set_uniqueId id s)).
Proof.
  intros Hbp id. unfold createUnaryOp.
  destruct (generatingOpCodeForSpecConst s) eqn:Hmode.
  - rewrite (bind_Ok _ _ s true s) by (unfold gets; now rewrite Hmode).
    apply createSpecConstantOp_Ok.
  - rewrite (bind_Ok _ _ s false s) by (unfold gets; now rewrite Hmode).
    run.
Qed.

Lemma createBinOp_Ok op ty o1 o2 s :
  buildPoint s < length (blockHeap s) ->
  let id := wrap32 (uniqueId s + 1) in
  createBinOp op ty o1 o2 s
  = Ok (id,
        if generatingOpCodeForSpecConst s then
          set_constantsTypesGlobals
            (constantsTypesGlobals s ++
               [mkInstruction id ty OpSpecConstantOp
                  [ImmediateOperand op; IdOperand o1; IdOperand o2]])
            (set_uniqueId id s)
        else
          set_blockHeap
            (alter (Block_addInstruction
                      (mkInstruction id ty op [IdOperand o1; IdOperand o2]))
                   (buildPoint s) (blockHeap s))
            (set_uniqueId id s)).
Proof.
  intros Hbp id. unfold createBinOp.
  destruct (generatingOpCodeForSpecConst s) eqn:Hmode.
  - rewrite (bind_Ok _ _ s true s) by (unfold gets; now rewrite Hmode).
    apply createSpecConstantOp_Ok.
  - rewrite (bind_Ok _ _ s false s) by (unfold gets; now rewrite Hmode).
    run.
Qed.

(** ** Straight-line code *)

Lemma Block_addInstructions_nil b : Block_addInstructions [] b = b.
Proof. destruct b. unfold Block_addInstructions. cbn. now rewrite app_nil_r. Qed.

Lemma emits_refl s s' :
  buildPoint s' = buildPoint s -> functionHeap s' = functionHeap s ->
  blockHeap s' = blockHeap s -> emits s s' [].
Proof.
  intros H1 H2 H3. repeat split; [done..|].
  rewrite H3. symmetry. apply list_alter_id, Block_addInstructions_nil.
Qed.

Lemma emits_one s s' inst :
  buildPoint s' = buildPoint s -> functionHeap s' = functionHeap s ->
  blockHeap s' = alter (Block_addInstruction inst) (buildPoint s) (blockHeap s) ->
  emits s s' [inst].
Proof. intros H1 H2 H3. repeat split; done. Qed.

Lemma emits_trans s1 s2 s3 c1 c2 :
  emits s1 s2 c1 -> emits s2 s3 c2 -> emits s1 s3 (c1 ++ c2).
Proof.
  intros (Hb1 & Hf1 & Hh1) (Hb2 & Hf2 & Hh2). repeat split.
  - congruence.
  - congruence.
  - rewrite Hh2, Hh1, Hb1, list_alter_alter_eq.
    apply list_alter_ext; [|done..]. intros b _.
    unfold Block_addInstructions. cbn. now rewrite app_assoc.
Qed.

Lemma emits_length s s' code :
  emits s s' code -> length (blockHeap s') = length (blockHeap s).
Proof. intros (_ & _ & ->). apply length_alter. Qed.

(** Every emission operation of the file issued at a valid build point
    returns the id it allocated, and is straight-line code. *)
Lemma emit_emits e s :
  buildPoint s < length (blockHeap s) ->
  exists s' code,
    emit e s = Ok (wrap32 (uniqueId s + 1), s') /\
    uniqueId s' = wrap32 (uniqueId s + 1) /\
    generatingOpCodeForSpecConst s' = generatingOpCodeForSpecConst s /\
    emits s s' code.
Proof.
  intros Hbp.
  assert (Hfold : forall r s',
    uniqueId s' = wrap32 (uniqueId s + 1) ->
    generatingOpCodeForSpecConst s' = generatingOpCodeForSpecConst s ->
    buildPoint s' = buildPoint s -> functionHeap s' = functionHeap s ->
    blockHeap s' = blockHeap s ->
    emit e s = Ok (r, s') -> r = wrap32 (uniqueId s + 1) ->
    exists s' code,
      emit e s = Ok (wrap32 (uniqueId s + 1), s') /\
      uniqueId s' = wrap32 (uniqueId s + 1) /\
      generatingOpCodeForSpecConst s' = generatingOpCodeForSpecConst s /\
      emits s s' code).
  { intros r s' H1 H2 H3 H4 H5 H6 ->. exists s', [].
    auto using emits_refl. }
  assert (Hrun : forall r s' inst,
    uniqueId s' = wrap32 (uniqueId s + 1) ->
    generatingOpCodeForSpecConst s' = generatingOpCodeForSpecConst s ->
    buildPoint s' = buildPoint s -> functionHeap s' = functionHeap s ->
    blockHeap s' = alter (Block_addInstruction inst) (buildPoint s) (blockHeap s) ->
    emit e s = Ok (r, s') -> r = wrap32 (uniqueId s + 1) ->
    exists s' code,
      emit e s = Ok (wrap32 (uniqueId s + 1), s') /\
      uniqueId s' = wrap32 (uniqueId s + 1) /\
      generatingOpCodeForSpecConst s' = generatingOpCodeForSpecConst s /\
      emits s s' code).
  { intros r s' inst H1 H2 H3 H4 H5 H6 ->. exists s', [inst].
    auto using emits_one. }
  destruct e; cbn [emit] in *.
  - destruct (generatingOpCodeForSpecConst s) eqn:Hmode.
    + eapply Hfold; [..| by apply createQuadOp_folding |]; done.
    + eapply Hrun; [..| by apply createQuadOp_runtime |]; done.
  - unfold createNoContractionUnaryOp in *.
    erewrite bind_Ok in Hfold, Hrun |- * by (by apply createUnaryOp_Ok).
    destruct (generatingOpCodeForSpecConst s) eqn:Hmode.
    + eapply Hfold; [..| run |]; done.
    + eapply Hrun; [..| run |]; done.
  - unfold createNoContractionBinOp in *.
    erewrite bind_Ok in Hfold, Hrun |- * by (by apply createBinOp_Ok).
    destruct (generatingOpCodeForSpecConst s) eqn:Hmode.
    + eapply Hfold; [..| run |]; done.
    + eapply Hrun; [..| run |]; done.
  - eapply Hrun; [..| by apply createUnaryBuiltinCall_Ok |]; done.
  - eapply Hrun; [..| by apply createBinBuiltinCall_Ok |]; done.
  - eapply Hrun; [..| by apply createTriBuiltinCall_Ok |]; done.
Qed.

Lemma emitAll_emits es : forall s,
  buildPoint s < length (blockHeap s) ->
  exists s' code, emitAll es s = Ok (tt, s') /\ emits s s' code.
Proof.
  induction es as [|e es IH]; intros s Hbp; cbn [emitAll].
  - exists s, []. split; [done|]. by apply emits_refl.
  - destruct (emit_emits e s Hbp) as (s1 & c1 & He & _ & _ & Hem).
    destruct (IH s1) as (s2 & c2 & Hes & Hem2).
    { destruct Hem as (-> & _ & ->). now rewrite length_alter. }
    exists s2, (c1 ++ c2). split; [|by eapply emits_trans].
    now rewrite (bind_Ok _ _ _ _ _ He).
Qed.

(** * The emission operations *)

(** C3.  [createQuadOp] takes exactly one of two paths, selected by the
    spec-constant mode flag of the emitter alone, whatever the arguments.
    Outside the mode it allocates the next id, builds the instruction with
    the given opcode, result type and the four id operands in argument
    order, appends it to the block at the build point and returns the id;
    the constant table is untouched.  In the mode it records the constant
    expression with the same opcode and operands under the next id, returns
    that id, and leaves every block untouched. *)
Theorem createQuadOp_two_paths (op_code : Op) (type_id o1 o2 o3 o4 : Id)
    (s : Builder) :
  let id := wrap32 (uniqueId s + 1) in
  (generatingOpCodeForSpecConst s = false ->
   forall b, blockHeap s !! buildPoint s = Some b ->
     let op := mkInstruction id type_id op_code
                 [IdOperand o1; IdOperand o2; IdOperand o3; IdOperand o4] in
     createQuadOp op_code type_id o1 o2 o3 o4 s
     = Ok (id, set_blockHeap
                 (<[buildPoint s := Block_addInstruction op b]> (blockHeap s))
                 (set_uniqueId id s)))
  /\
  (generatingOpCodeForSpecConst s = true ->
     let record := mkInstruction id type_id OpSpecConstantOp
                     [ImmediateOperand op_code;
                      IdOperand o1; IdOperand o2; IdOperand o3; IdOperand o4] in
     createQuadOp op_code type_id o1 o2 o3 o4 s
     = Ok (id, set_constantsTypesGlobals (constantsTypesGlobals s ++ [record])
                 (set_uniqueId id s))).
Proof.
  intros id. split.
  - intros Hmode b Hb op.
    rewrite createQuadOp_runtime by (done || by eapply lookup_lt_Some).
    now rewrite (alter_insert_lookup _ _ _ _ Hb).
  - intros Hmode record. now apply createQuadOp_folding.
Qed.

Lemma createQuadOp_two_paths_witness :
  createQuadOp 128 3 20 21 22 23 exampleBuilder
  = Ok (11%Z,
        mkBuilder 11 0 false
          [mkBlock 2 0
             [mkInstruction 11 3 128
                [IdOperand 20; IdOperand 21; IdOperand 22; IdOperand 23]] []]
          [mkFunction 1 [0]] [] [])
  /\
  createQuadOp 128 3 20 21 22 23 exampleFolding
  = Ok (11%Z,
        mkBuilder 11 0 true [mkBlock 2 0 [] []] [mkFunction 1 [0]]
          [mkInstruction 11 3 OpSpecConstantOp
             [ImmediateOperand 128; IdOperand 20; IdOperand 21; IdOperand 22;
              IdOperand 23]] []).
Proof.
  split.
  - exact (proj1 (createQuadOp_two_paths 128 3 20 21 22 23 exampleBuilder)
             eq_refl (mkBlock 2 0 [] []) eq_refl).
  - exact (proj2 (createQuadOp_two_paths 128 3 20 21 22 23 exampleFolding)
             eq_refl).
Defined.

(** C4.  In spec-constant mode [createQuadOp] appends to no block: the block
    store, hence the instruction count of every block and of the build point
    in particular, is the same after the call as before it. *)
Theorem createQuadOp_folding_appends_nothing (op_code : Op)
    (type_id o1 o2 o3 o4 : Id) (s : Builder) :
  generatingOpCodeForSpecConst s = true ->
  exists id s',
    createQuadOp op_code type_id o1 o2 o3 o4 s = Ok (id, s') /\
    blockHeap s' = blockHeap s /\
    buildPoint s' = buildPoint s /\
    (forall p, instructionCount s' p = instructionCount s p) /\
    instructionCount s' (buildPoint s') = instructionCount s (buildPoint s).
Proof.
  intros Hmode. eexists _, _. split; [by apply createQuadOp_folding|].
  done.
Qed.

Lemma createQuadOp_folding_appends_nothing_witness :
  exists id s',
    createQuadOp 128 3 20 21 22 23 exampleFolding = Ok (id, s') /\
    blockHeap s' = blockHeap exampleFolding /\
    buildPoint s' = buildPoint exampleFolding /\
    (forall p, instructionCount s' p = instructionCount exampleFolding p) /\
    instructionCount s' (buildPoint s')
    = instructionCount exampleFolding (buildPoint exampleFolding).
Proof.
  exact (createQuadOp_folding_appends_nothing 128 3 20 21 22 23 exampleFolding
           eq_refl).
Defined.

(** C5.  Every call of an emission operation ([createQuadOp], the two
    no-contraction operations and the three builtin calls) issued at a valid
    build point returns, and advances the 32-bit id counter by exactly one,
    whichever the spec-constant mode: on the run-time path and on the
    constant-folding path alike.  The id returned is the new counter value. *)
Theorem emission_increments_uniqueId_once (e : Emission) (s : Builder) :
  buildPoint s < length (blockHeap s) ->
  exists id s',
    emit e s = Ok (id, s') /\
    uniqueId s' = wrap32 (uniqueId s + 1) /\
    id = uniqueId s'.
Proof.
  intros Hbp. destruct (emit_emits e s Hbp) as (s' & code & He & Hid & _).
  exists (wrap32 (uniqueId s + 1)), s'. auto.
Qed.

Lemma emission_increments_uniqueId_once_witness :
  (exists id s',
     emit (QuadOp 128 3 20 21 22 23) exampleBuilder = Ok (id, s') /\
     uniqueId s' = wrap32 (uniqueId exampleBuilder + 1) /\ id = uniqueId s')
  /\
  (exists id s',
     emit (QuadOp 128 3 20 21 22 23) exampleFolding = Ok (id, s') /\
     uniqueId s' = wrap32 (uniqueId exampleFolding + 1) /\ id = uniqueId s').
Proof.
  split.
  - apply (emission_increments_uniqueId_once (QuadOp 128 3 20 21 22 23)
             exampleBuilder).
    cbn. lia.
  - apply (emission_increments_uniqueId_once (QuadOp 128 3 20 21 22 23)
             exampleFolding).
    cbn. lia.
Defined.

(** C8.  Each builtin call builds an [OpExtInst] instruction with the next
    id and the given result type, whose operands are the extension-set id,
    the entry point as an immediate (the [int] index converted to the
    unsigned operand, itself whenever it is not negative) and then the one,
    two or three value ids in argument order; it appends the instruction to
    the block at the build point and returns its id.  The spec-constant mode
    flag is not consulted: the result is the same whatever its value, and
    the constant table is left as it was. *)
Theorem builtin_calls_emit_OpExtInst (result_type builtins : Id)
    (entry_point : Z) (o1 o2 o3 : Id) (s : Builder) (b : Block) :
  blockHeap s !! buildPoint s = Some b ->
  let id := wrap32 (uniqueId s + 1) in
  let call values :=
    mkInstruction id result_type OpExtInst
      (IdOperand builtins :: ImmediateOperand (wrap32 entry_point)
         :: map IdOperand values) in
  let appended inst :=
    Ok (id, set_blockHeap
              (<[buildPoint s := Block_addInstruction inst b]> (blockHeap s))
              (set_uniqueId id s)) in
  createUnaryBuiltinCall result_type builtins entry_point o1 s
    = appended (call [o1]) /\
  createBinBuiltinCall result_type builtins entry_point o1 o2 s
    = appended (call [o1; o2]) /\
  createTriBuiltinCall result_type builtins entry_point o1 o2 o3 s
    = appended (call [o1; o2; o3]) /\
  ((0 <= entry_point < 2 ^ 32)%Z -> wrap32 entry_point = entry_point).
Proof.
  intros Hb id call appended. subst appended call. cbn [map].
  pose proof (lookup_lt_Some _ _ _ Hb) as Hbp.
  rewrite createUnaryBuiltinCall_Ok, createBinBuiltinCall_Ok,
    createTriBuiltinCall_Ok by done.
  rewrite !(alter_insert_lookup _ _ _ _ Hb).
  repeat split. apply wrap32_small.
Qed.

Lemma builtin_calls_emit_OpExtInst_witness :
  createUnaryBuiltinCall 3 5 31 20 exampleFolding
  = Ok (11%Z,
        mkBuilder 11 0 true
          [mkBlock 2 0
             [mkInstruction 11 3 OpExtInst
                [IdOperand 5; ImmediateOperand 31; IdOperand 20]] []]
          [mkFunction 1 [0]] [] []).
Proof.
  exact (proj1 (builtin_calls_emit_OpExtInst 3 5 31 20 21 22 exampleFolding
                  (mkBlock 2 0 [] []) eq_refl)).
Defined.

(** * The structured if builder *)

(** ** Block identities are stable *)

Lemma blockIdAt_lookup h p b : h !! p = Some b -> blockIdAt h p = blockId b.
Proof. intros H. unfold blockIdAt. now rewrite H. Qed.

Lemma parentAt_lookup h p b : h !! p = Some b -> parentAt h p = parent b.
Proof. intros H. unfold parentAt. now rewrite H. Qed.

Lemma blockIdAt_alter f h p q :
  (forall b, blockId (f b) = blockId b) ->
  blockIdAt (alter f p h) q = blockIdAt h q.
Proof.
  intros Hf. unfold blockIdAt. destruct (decide (p = q)) as [->|Hne].
  - rewrite list_lookup_alter_eq. destruct (h !! q); cbn; [apply Hf | done].
  - now rewrite list_lookup_alter_ne.
Qed.

Lemma blockIdAt_addInstruction inst h p q :
  blockIdAt (alter (Block_addInstruction inst) p h) q = blockIdAt h q.
Proof. now apply blockIdAt_alter. Qed.

Lemma blockIdAt_addPredecessor pred h p q :
  blockIdAt (alter (Block_addPredecessor pred) p h) q = blockIdAt h q.
Proof. now apply blockIdAt_alter. Qed.

Lemma blockIdAt_app_l h k p :
  p < length h -> blockIdAt (h ++ k) p = blockIdAt h p.
Proof. intros H. unfold blockIdAt. now rewrite lookup_app_l. Qed.

Lemma assert_true_inv NDEBUG e s r :
  assert_true NDEBUG e s = Ok r -> NDEBUG || e = true.
Proof. unfold assert_true. now destruct (NDEBUG || e). Qed.

(** ** The three operations in closed form *)

Lemma IfBuilder_new_Ok c ctl tw ew s0 hb :
  blockHeap s0 !! buildPoint s0 = Some hb ->
  parent hb < length (functionHeap s0) ->
  let n := length (blockHeap s0) in
  let id1 := wrap32 (uniqueId s0 + 1) in
  let id2 := wrap32 (id1 + 1) in
  IfBuilder_new c ctl tw ew s0
  = Ok (mkIfBuilder c ctl tw ew (parent hb) (buildPoint s0) n None (S n)
          (blockId hb) (blockId hb) kThen,
        mkBuilder id2 n (generatingOpCodeForSpecConst s0)
          (blockHeap s0 ++ [Block_new id1 (parent hb); Block_new id2 (parent hb)])
          (alter (Function_addBlock n) (parent hb) (functionHeap s0))
          (constantsTypesGlobals s0) (decorations s0)).
Proof.
  intros Hb Hf n id1 id2.
  pose proof (lookup_lt_Some _ _ _ Hb) as Hbp.
  pose proof (parentAt_lookup _ _ _ Hb) as Hparent.
  pose proof (blockIdAt_lookup _ _ _ Hb) as Hid.
  unfold IfBuilder_new. etransitivity; [run|]. unfold ret. proj_simpl.
  rewrite !blockIdAt_app_l by (rewrite ?length_app; lia).
  rewrite Hparent, Hid, <- app_assoc, length_app, Nat.add_1_r.
  reflexivity.
Qed.

Lemma makeBeginElse_Ok NDEBUG branchToMerge ib s :
  IfBuilder_valid ib s ->
  (branchToMerge = true -> buildPoint s < length (blockHeap s)) ->
  (NDEBUG = false -> currentBranch ib = kThen) ->
  let h := blockHeap s in
  let bp := buildPoint s in
  let n := length h in
  let id := wrap32 (uniqueId s + 1) in
  makeBeginElse NDEBUG branchToMerge ib s
  = Ok (set_currentBranch NDEBUG kElse
          (set_elseBlock (Some n)
             (if branchToMerge then set_thenPhiParent (blockIdAt h bp) ib
              else ib)),
        mkBuilder id n (generatingOpCodeForSpecConst s)
          ((if branchToMerge then
              alter (Block_addPredecessor bp) (mergeBlock ib)
                (alter (Block_addInstruction
                          (branchTo (blockIdAt h (mergeBlock ib)))) bp h)
            else h) ++ [Block_new id (function ib)])
          (alter (Function_addBlock n) (function ib) (functionHeap s))
          (constantsTypesGlobals s) (decorations s)).
Proof.
  intros (Hh & Ht & Hm & He & Hf) Hbp Hphase h bp n id.
  subst h bp n id. unfold makeBeginElse.
  rewrite (bind_Ok _ _ s tt s).
  2:{ destruct NDEBUG; [done|]. unfold assert_true. now rewrite Hphase. }
  destruct ib as [c ctl tw ew f hd th el mg tp ep cb]; cbn in *.
  destruct branchToMerge; [specialize (Hbp eq_refl)|];
    (etransitivity; [run|]); unfold ret; proj_simpl;
    rewrite ?length_alter, ?blockIdAt_addInstruction, ?blockIdAt_addPredecessor;
    destruct NDEBUG; reflexivity.
Qed.

Lemma makeBeginElse_inv NDEBUG branchToMerge ib s r :
  makeBeginElse NDEBUG branchToMerge ib s = Ok r ->
  (NDEBUG = false -> currentBranch ib = kThen) /\
  function ib < length (functionHeap s) /\
  (branchToMerge = true ->
   buildPoint s < length (blockHeap s) /\ mergeBlock ib < length (blockHeap s)).
Proof.
  destruct r as [ib' s']. unfold makeBeginElse. intros H.
  apply bind_inv in H as ([] & s1 & Hassert & H).
  assert (s1 = s /\ (NDEBUG = false -> currentBranch ib = kThen)) as [-> Hphase].
  { destruct NDEBUG.
    - apply Ok_inv in Hassert as [_ ->]. done.
    - pose proof (assert_true_inv _ _ _ _ Hassert) as He.
      unfold assert_true in Hassert. rewrite He in Hassert.
      apply Ok_inv in Hassert as [_ ->]. split; [done|]. intros _.
      now destruct (currentBranch ib). }
  split; [done|].
  destruct ib as [c ctl tw ew f hd th el mg tp ep cb]; cbn in *.
  destruct branchToMerge; invM H; rewrite ?length_alter in *.
  - split; [done|]. intros _. done.
  - split; [done|]. intros ?. done.
Qed.

Lemma makeEndIf_Ok (NDEBUG branchToMerge : bool) (ib : IfBuilder) (s : Builder) :
  IfBuilder_valid ib s ->
  (branchToMerge = true -> buildPoint s < length (blockHeap s)) ->
  (NDEBUG = false -> currentBranch ib <> kMerge) ->
  let h := blockHeap s in
  let bp := buildPoint s in
  let falseBlock := default (mergeBlock ib) (elseBlock ib) in
  let weights :=
    if negb (thenWeight ib =? 0)%Z || negb (elseWeight ib =? 0)%Z
    then [ImmediateOperand (thenWeight ib); ImmediateOperand (elseWeight ib)]
    else [] in
  let h1 :=
    if branchToMerge then
      alter (Block_addPredecessor bp) (mergeBlock ib)
        (alter (Block_addInstruction (branchTo (blockIdAt h (mergeBlock ib))))
           bp h)
    else h in
  let h2 :=
    alter (Block_addInstruction
             (branchConditional (condition ib) (blockIdAt h (thenBlock ib))
                (blockIdAt h falseBlock) weights))
      (headerBlock ib)
      (alter (Block_addInstruction
                (selectionMerge (blockIdAt h (mergeBlock ib)) (control ib)))
         (headerBlock ib) h1) in
  makeEndIf NDEBUG branchToMerge ib s
  = Ok (set_currentBranch NDEBUG kMerge
          (if branchToMerge then
             match elseBlock ib with
             | Some _ => set_elsePhiParent (blockIdAt h bp) ib
             | None => set_thenPhiParent (blockIdAt h bp) ib
             end
           else ib),
        mkBuilder (uniqueId s) (mergeBlock ib) (generatingOpCodeForSpecConst s)
          (alter (Block_addPredecessor (headerBlock ib)) falseBlock
             (alter (Block_addPredecessor (headerBlock ib)) (thenBlock ib) h2))
          (alter (Function_addBlock (mergeBlock ib)) (function ib)
             (functionHeap s))
          (constantsTypesGlobals s) (decorations s)).
Proof.
  intros (Hh & Ht & Hm & He & Hf) Hbp Hphase h bp falseBlock weights h1 h2.
  subst h bp falseBlock weights h1 h2. unfold makeEndIf.
  rewrite (bind_Ok _ _ s tt s).
  2:{ destruct NDEBUG; [done|]. unfold assert_true.
      destruct (currentBranch ib); try done. now destruct Hphase. }
  destruct ib as [c ctl tw ew f hd th el mg tp ep cb]; cbn in *.
  destruct el as [e|]; [specialize (He e eq_refl)|];
    (destruct branchToMerge; [specialize (Hbp eq_refl)|]);
    (etransitivity; [run|]); unfold ret; proj_simpl;
    repeat (rewrite blockIdAt_addInstruction || rewrite blockIdAt_addPredecessor);
    destruct NDEBUG;
    destruct (negb (tw =? 0)%Z || negb (ew =? 0)%Z); reflexivity.
Qed.

Lemma makeEndIf_inv NDEBUG branchToMerge ib s r :
  makeEndIf NDEBUG branchToMerge ib s = Ok r ->
  (NDEBUG = false -> currentBranch ib <> kMerge) /\
  IfBuilder_valid ib s /\
  (branchToMerge = true -> buildPoint s < length (blockHeap s)).
Proof.
  destruct r as [ib' s']. unfold makeEndIf. intros H.
  apply bind_inv in H as ([] & s1 & Hassert & H).
  assert (s1 = s /\ (NDEBUG = false -> currentBranch ib <> kMerge))
    as [-> Hphase].
  { destruct NDEBUG.
    - apply Ok_inv in Hassert as [_ ->]. done.
    - pose proof (assert_true_inv _ _ _ _ Hassert) as He.
      unfold assert_true in Hassert. rewrite He in Hassert.
      apply Ok_inv in Hassert as [_ ->]. split; [done|]. intros _.
      now destruct (currentBranch ib). }
  split; [done|]. unfold IfBuilder_valid.
  destruct ib as [c ctl tw ew f hd th el mg tp ep cb]; cbn in *.
  destruct el as [e|]; destruct branchToMerge; invM H;
    repeat split; try done; intros; by simplify_eq.
Qed.

Lemma makeBeginElse_returns NDEBUG branchToMerge ib s :
  IfBuilder_valid ib s ->
  (branchToMerge = true -> buildPoint s < length (blockHeap s)) ->
  (NDEBUG = false -> currentBranch ib = kThen) ->
  exists ib' s', makeBeginElse NDEBUG branchToMerge ib s = Ok (ib', s').
Proof.
  intros Hvalid Hbp Hphase. eexists _, _. now apply makeBeginElse_Ok.
Qed.

Lemma makeEndIf_returns NDEBUG branchToMerge ib s :
  IfBuilder_valid ib s ->
  (branchToMerge = true -> buildPoint s < length (blockHeap s)) ->
  (NDEBUG = false -> currentBranch ib <> kMerge) ->
  exists ib' s', makeEndIf NDEBUG branchToMerge ib s = Ok (ib', s').
Proof.
  intros Hvalid Hbp Hphase. eexists _, _. now apply makeEndIf_Ok.
Qed.

(** ** What a returning call did *)

Lemma makeBeginElse_spec NDEBUG branchToMerge ib s ib' s' :
  makeBeginElse NDEBUG branchToMerge ib s = Ok (ib', s') ->
  ib' = set_currentBranch NDEBUG kElse
          (set_elseBlock (Some (length (blockHeap s)))
             (if branchToMerge
              then set_thenPhiParent (blockIdAt (blockHeap s) (buildPoint s)) ib
              else ib)) /\
  buildPoint s' = length (blockHeap s) /\
  (NDEBUG = false -> currentBranch ib = kThen).
Proof.
  intros H. unfold makeBeginElse in H.
  apply bind_inv in H as ([] & s1 & Hassert & H).
  assert (s1 = s /\ (NDEBUG = false -> currentBranch ib = kThen)) as [-> Hphase].
  { destruct NDEBUG.
    - apply Ok_inv in Hassert as [_ ->]. done.
    - pose proof (assert_true_inv _ _ _ _ Hassert) as He.
      unfold assert_true in Hassert. rewrite He in Hassert.
      apply Ok_inv in Hassert as [_ ->]. split; [done|]. intros _.
      now destruct (currentBranch ib). }
  destruct ib as [c ctl tw ew f hd th el mg tp ep cb]; cbn in *.
  destruct branchToMerge; invM H; rewrite ?length_alter; done.
Qed.

Lemma makeEndIf_spec NDEBUG branchToMerge ib s ib' s' :
  makeEndIf NDEBUG branchToMerge ib s = Ok (ib', s') ->
  ib' = set_currentBranch NDEBUG kMerge
          (if branchToMerge then
             match elseBlock ib with
             | Some _ => set_elsePhiParent (blockIdAt (blockHeap s) (buildPoint s)) ib
             | None => set_thenPhiParent (blockIdAt (blockHeap s) (buildPoint s)) ib
             end
           else ib) /\
  buildPoint s' = mergeBlock ib /\
  length (blockHeap s') = length (blockHeap s) /\
  generatingOpCodeForSpecConst s' = generatingOpCodeForSpecConst s /\
  IfBuilder_valid ib s /\
  (NDEBUG = false -> currentBranch ib <> kMerge).
Proof.
  intros H. destruct (makeEndIf_inv _ _ _ _ _ H) as (Hphase & Hvalid & Hbp).
  rewrite makeEndIf_Ok in H by done. apply Ok_inv in H as [-> ->].
  cbn. rewrite !length_alter.
  destruct branchToMerge; rewrite ?length_alter; done.
Qed.

(** C7.  With the assertions compiled in ([NDEBUG] undefined) the phase of
    an [IfBuilder] only moves forward, Then to Else to Merged.  The
    constructor starts the construct in the Then phase.  [makeBeginElse]
    fails its assertion unless the phase is Then, and a call that returns
    moved the phase from Then to Else.  [makeEndIf] fails its assertion
    unless the phase is Then or Else, and a call that returns left the phase
    at Merged and the build point at the merge block.  So a second
    [makeBeginElse], and a [makeBeginElse] after [makeEndIf], fail the
    assertion, from whatever emitter state they are called.  Calls made in a
    legal phase with valid pointers do return. *)
Theorem IfBuilder_phase_discipline :
  (forall c ctl tw ew s ib s',
     IfBuilder_new c ctl tw ew s = Ok (ib, s') -> currentBranch ib = kThen) /\
  (forall branchToMerge ib s,
     currentBranch ib <> kThen ->
     makeBeginElse false branchToMerge ib s = AssertionFailure) /\
  (forall branchToMerge ib s,
     currentBranch ib <> kThen -> currentBranch ib <> kElse ->
     makeEndIf false branchToMerge ib s = AssertionFailure) /\
  (forall branchToMerge ib s ib' s',
     makeBeginElse false branchToMerge ib s = Ok (ib', s') ->
     currentBranch ib = kThen /\ currentBranch ib' = kElse /\
     Branch_rank (currentBranch ib) < Branch_rank (currentBranch ib')) /\
  (forall branchToMerge ib s ib' s',
     makeEndIf false branchToMerge ib s = Ok (ib', s') ->
     (currentBranch ib = kThen \/ currentBranch ib = kElse) /\
     currentBranch ib' = kMerge /\
     Branch_rank (currentBranch ib) < Branch_rank (currentBranch ib') /\
     mergeBlock ib' = mergeBlock ib /\
     buildPoint s' = mergeBlock ib') /\
  (forall b1 b2 ib s ib' s' s'',
     makeBeginElse false b1 ib s = Ok (ib', s') ->
     makeBeginElse false b2 ib' s'' = AssertionFailure) /\
  (forall b1 b2 ib s ib' s' s'',
     makeEndIf false b1 ib s = Ok (ib', s') ->
     makeBeginElse false b2 ib' s'' = AssertionFailure /\
     makeEndIf false b2 ib' s'' = AssertionFailure) /\
  (forall branchToMerge ib s,
     IfBuilder_valid ib s -> buildPoint s < length (blockHeap s) ->
     (currentBranch ib = kThen ->
      exists r, makeBeginElse false branchToMerge ib s = Ok r) /\
     (currentBranch ib <> kMerge ->
      exists r, makeEndIf false branchToMerge ib s = Ok r)).
Proof.
  assert (Hbegin : forall branchToMerge ib s,
     currentBranch ib <> kThen ->
     makeBeginElse false branchToMerge ib s = AssertionFailure).
  { intros b ib s Hne. unfold makeBeginElse, bind, assert_true.
    destruct (currentBranch ib); done. }
  assert (Hend : forall branchToMerge ib s,
     currentBranch ib <> kThen -> currentBranch ib <> kElse ->
     makeEndIf false branchToMerge ib s = AssertionFailure).
  { intros b ib s Hne1 Hne2. unfold makeEndIf, bind, assert_true.
    destruct (currentBranch ib); done. }
  split; [|split; [exact Hbegin|split; [exact Hend|]]].
  { intros c ctl tw ew s ib s' H. unfold IfBuilder_new in H. invM H.
    reflexivity. }
  split; [|split; [|split; [|split]]].
  - intros b ib s ib' s' H.
    apply makeBeginElse_spec in H as (-> & _ & Hphase).
    rewrite (Hphase eq_refl). destruct b; cbn; rewrite ?(Hphase eq_refl);
      repeat split; cbn; lia.
  - intros b ib s ib' s' H.
    apply makeEndIf_spec in H as (-> & Hbp & _ & _ & _ & Hphase).
    specialize (Hphase eq_refl).
    assert (Hm : forall x, mergeBlock (set_currentBranch false kMerge x)
                           = mergeBlock x) by done.
    assert (Hc : forall x, currentBranch (set_currentBranch false kMerge x)
                           = kMerge) by done.
    rewrite Hm, Hc.
    assert (Hmerge : mergeBlock
              (if b then
                 match elseBlock ib with
                 | Some _ => set_elsePhiParent (blockIdAt (blockHeap s) (buildPoint s)) ib
                 | None => set_thenPhiParent (blockIdAt (blockHeap s) (buildPoint s)) ib
                 end
               else ib) = mergeBlock ib).
    { destruct b; [destruct (elseBlock ib)|]; done. }
    rewrite Hmerge.
    destruct (currentBranch ib); cbn; repeat split; auto; try lia; done.
  - intros b1 b2 ib s ib' s' s'' H. apply Hbegin.
    apply makeBeginElse_spec in H as (-> & _). done.
  - intros b1 b2 ib s ib' s' s'' H.
    apply makeEndIf_spec in H as (-> & _).
    split; [apply Hbegin | apply Hend]; done.
  - intros b ib s Hvalid Hbp. split; intros Hphase.
    + eexists. apply makeBeginElse_Ok; done.
    + eexists. apply makeEndIf_Ok; done.
Qed.

Lemma IfBuilder_phase_discipline_witness :
  exists ib s1 ib1 s2 ib2 s3,
    IfBuilder_new 9 0 0 0 exampleBuilder = Ok (ib, s1) /\
    makeBeginElse false true ib s1 = Ok (ib1, s2) /\
    makeBeginElse false true ib1 s2 = AssertionFailure /\
    makeEndIf false true ib1 s2 = Ok (ib2, s3) /\
    makeBeginElse false true ib2 s3 = AssertionFailure /\
    currentBranch ib = kThen /\ currentBranch ib1 = kElse /\
    currentBranch ib2 = kMerge /\ buildPoint s3 = mergeBlock ib2.
Proof.
  destruct IfBuilder_phase_discipline
    as (Hnew & _ & _ & Hbegin & Hend & Htwice & Hafter & _).
  call_result ib s1 (IfBuilder_new 9 0 0 0 exampleBuilder).
  call_result ib1 s2 (makeBeginElse false true ib s1).
  call_result ib2 s3 (makeEndIf false true ib1 s2).
  exists ib, s1, ib1, s2, ib2, s3.
  split; [reflexivity|]. split; [reflexivity|].
  split; [exact (Htwice true true ib s1 ib1 s2 s2 eq_refl)|].
  split; [reflexivity|].
  split; [exact (proj1 (Hafter true true ib1 s2 ib2 s3 s3 eq_refl))|].
  split; [exact (Hnew 9%Z 0%Z 0%Z 0%Z exampleBuilder ib s1 eq_refl)|].
  split; [exact (proj1 (proj2 (Hbegin true ib s1 ib1 s2 eq_refl)))|].
  pose proof (Hend true ib1 s2 ib2 s3 eq_refl) as (_ & H1 & _ & _ & H2).
  exact (conj H1 H2).
Defined.

(** ** The instructions and predecessors of a block through the updates *)

Lemma instructionsAt_Some h p l :
  instructionsAt h p = Some l <-> exists b, h !! p = Some b /\ instructions b = l.
Proof.
  unfold instructionsAt. rewrite fmap_Some. split.
  - intros (b & Hb & ->). eauto.
  - intros (b & Hb & <-). eauto.
Qed.

Lemma instructionsAt_valid h p :
  p < length h -> exists l, instructionsAt h p = Some l.
Proof.
  intros H. apply lookup_lt_is_Some_2 in H as [b Hb].
  exists (instructions b). apply instructionsAt_Some. eauto.
Qed.

Lemma instructionsAt_addPredecessor pred h p q :
  instructionsAt (alter (Block_addPredecessor pred) p h) q = instructionsAt h q.
Proof.
  unfold instructionsAt. destruct (decide (p = q)) as [->|Hne].
  - rewrite list_lookup_alter_eq. now destruct (h !! q).
  - now rewrite list_lookup_alter_ne.
Qed.

Lemma instructionsAt_addInstruction_eq inst h p :
  instructionsAt (alter (Block_addInstruction inst) p h) p
  = (fun l => l ++ [inst]) <$> instructionsAt h p.
Proof.
  unfold instructionsAt. rewrite list_lookup_alter_eq. now destruct (h !! p).
Qed.

Lemma length_branch_heap (b : bool) (f g : Block -> Block) p q (h : list Block) :
  length (if b then alter f p (alter g q h) else h) = length h.
Proof. destruct b; now rewrite ?length_alter. Qed.

(** C6.  The conditional branch that [makeEndIf] appends last to the header
    block has the condition, the then-block id and the false-block id as
    its first three operands, followed by the weight operands.  The weight
    operands are the two immediates [thenWeight], [elseWeight], in that
    order, exactly when at least one of the two weights is not zero, and
    there is none exactly when both are zero. *)
Theorem makeEndIf_branch_weights (NDEBUG branchToMerge : bool) (ib : IfBuilder)
    (s : Builder) :
  IfBuilder_valid ib s ->
  (branchToMerge = true -> buildPoint s < length (blockHeap s)) ->
  (NDEBUG = false -> currentBranch ib <> kMerge) ->
  exists ib' s' hb branch trueTarget falseTarget weights,
    makeEndIf NDEBUG branchToMerge ib s = Ok (ib', s') /\
    blockHeap s' !! headerBlock ib = Some hb /\
    list.last (instructions hb) = Some branch /\
    opCode branch = OpBranchConditional /\
    trueTarget = blockIdAt (blockHeap s) (thenBlock ib) /\
    falseTarget
    = blockIdAt (blockHeap s) (default (mergeBlock ib) (elseBlock ib)) /\
    operands branch
    = [IdOperand (condition ib); IdOperand trueTarget; IdOperand falseTarget]
        ++ weights /\
    (weights = [ImmediateOperand (thenWeight ib); ImmediateOperand (elseWeight ib)]
     <-> (thenWeight ib <> 0 \/ elseWeight ib <> 0)%Z) /\
    (weights = [] <-> (thenWeight ib = 0 /\ elseWeight ib = 0)%Z).
Proof.
  intros Hvalid Hbp Hphase.
  pose proof (makeEndIf_Ok NDEBUG branchToMerge ib s Hvalid Hbp Hphase) as Hok.
  cbv zeta in Hok.
  destruct Hvalid as (Hh & Ht & Hm & He & Hf).
  set (weights :=
         if negb (thenWeight ib =? 0)%Z || negb (elseWeight ib =? 0)%Z
         then [ImmediateOperand (thenWeight ib); ImmediateOperand (elseWeight ib)]
         else []) in *.
  set (h1 := if branchToMerge then alter _ _ _ else _) in *.
  set (branch := branchConditional _ _ _ weights) in *.
  assert (Hh1 : length h1 = length (blockHeap s)) by apply length_branch_heap.
  destruct (instructionsAt_valid h1 (headerBlock ib)) as [l Hl]; [lia|].
  match type of Hok with
  | _ = Ok (_, mkBuilder _ _ _ ?h _ _ _) =>
      assert (Hfinal : instructionsAt h (headerBlock ib)
                       = Some ((l ++ [selectionMerge
                                        (blockIdAt (blockHeap s) (mergeBlock ib))
                                        (control ib)]) ++ [branch]))
  end.
  { rewrite !instructionsAt_addPredecessor, !instructionsAt_addInstruction_eq, Hl.
    reflexivity. }
  apply instructionsAt_Some in Hfinal as (hb & Hhb & Hinstr).
  eexists _, _, hb, branch, _, _, weights.
  split; [exact Hok|]. split; [exact Hhb|].
  split; [rewrite Hinstr; apply last_snoc|].
  split; [reflexivity|]. split; [reflexivity|]. split; [reflexivity|].
  split; [reflexivity|].
  subst weights.
  destruct (Z.eqb_spec (thenWeight ib) 0) as [Ht0|Ht0];
    destruct (Z.eqb_spec (elseWeight ib) 0) as [He0|He0]; cbn;
    split; split; intros H; try done; try lia; auto.
Qed.

Lemma makeEndIf_branch_weights_witness :
  exists ib' s' hb branch trueTarget falseTarget weights,
    makeEndIf false true
      (mkIfBuilder 9 0 3 0 0 0 1 None 2 2 2 kThen)
      (mkBuilder 12 1 false
         [mkBlock 2 0 [] []; mkBlock 11 0 [] []; mkBlock 12 0 [] []]
         [mkFunction 1 [0; 1]] [] [])
    = Ok (ib', s') /\
    blockHeap s' !! 0 = Some hb /\
    list.last (instructions hb) = Some branch /\
    opCode branch = OpBranchConditional /\
    trueTarget = 11%Z /\
    falseTarget = 12%Z /\
    operands branch
    = [IdOperand 9; IdOperand trueTarget; IdOperand falseTarget] ++ weights /\
    (weights = [ImmediateOperand 3; ImmediateOperand 0]
     <-> (3 <> 0 \/ 0 <> 0)%Z) /\
    (weights = [] <-> (3 = 0 /\ 0 = 0)%Z).
Proof.
  apply (makeEndIf_branch_weights false true
           (mkIfBuilder 9 0 3 0 0 0 1 None 2 2 2 kThen)
           (mkBuilder 12 1 false
              [mkBlock 2 0 [] []; mkBlock 11 0 [] []; mkBlock 12 0 [] []]
              [mkFunction 1 [0; 1]] [] [])).
  - unfold IfBuilder_valid. cbn. repeat split; try lia. intros e He. discriminate.
  - intros _. cbn. lia.
  - intros _. cbn. discriminate.
Defined.

(** ** The value join *)

Lemma createMergePhi_unfold getTypeId NDEBUG a b ib s :
  buildPoint s = mergeBlock ib ->
  createMergePhi getTypeId NDEBUG a b ib s
  = createQuadOp OpPhi (getTypeId s a) a (thenPhiParent ib) b (elsePhiParent ib) s.
Proof.
  intros Hbp. unfold createMergePhi.
  rewrite (bind_Ok _ _ s (buildPoint s) s) by reflexivity.
  rewrite (bind_Ok _ _ s tt s).
  2:{ unfold assert_true. rewrite Hbp, Nat.eqb_refl, orb_true_r. reflexivity. }
  now rewrite (bind_Ok _ _ s (getTypeId s a) s) by reflexivity.
Qed.

Lemma createMergePhi_runtime getTypeId NDEBUG a b ib s mb :
  buildPoint s = mergeBlock ib ->
  blockHeap s !! mergeBlock ib = Some mb ->
  generatingOpCodeForSpecConst s = false ->
  let id := wrap32 (uniqueId s + 1) in
  createMergePhi getTypeId NDEBUG a b ib s
  = Ok (id, set_blockHeap
              (<[mergeBlock ib :=
                   Block_addInstruction
                     (mkInstruction id (getTypeId s a) OpPhi
                        [IdOperand a; IdOperand (thenPhiParent ib);
                         IdOperand b; IdOperand (elsePhiParent ib)]) mb]>
                 (blockHeap s))
              (set_uniqueId id s)).
Proof.
  intros Hbp Hmb Hmode id.
  rewrite createMergePhi_unfold, createQuadOp_runtime;
    [|done|rewrite Hbp; by eapply lookup_lt_Some|done].
  rewrite Hbp. now rewrite (alter_insert_lookup _ _ _ _ Hmb).
Qed.

(** ** Pointers stay valid along a construct *)

Lemma emits_valid ib s s' code :
  emits s s' code ->
  (IfBuilder_valid ib s -> IfBuilder_valid ib s') /\
  (buildPoint s < length (blockHeap s) -> buildPoint s' < length (blockHeap s')).
Proof.
  intros Hem. pose proof (emits_length _ _ _ Hem) as Hlen.
  destruct Hem as (Hbp & Hf & _). unfold IfBuilder_valid.
  rewrite Hlen, Hf, Hbp. tauto.
Qed.

Lemma IfBuilder_new_valid c ctl tw ew s0 ib s1 :
  IfBuilder_new c ctl tw ew s0 = Ok (ib, s1) ->
  IfBuilder_valid ib s1 /\ buildPoint s1 < length (blockHeap s1) /\
  currentBranch ib = kThen /\ elseBlock ib = None.
Proof.
  intros H. unfold IfBuilder_new in H. invM H.
  unfold IfBuilder_valid. cbn. rewrite !length_app, length_alter. cbn.
  repeat split; try lia. intros e He. discriminate.
Qed.

Lemma IfBuilder_new_mode c ctl tw ew s0 ib s1 :
  IfBuilder_new c ctl tw ew s0 = Ok (ib, s1) ->
  generatingOpCodeForSpecConst s1 = generatingOpCodeForSpecConst s0.
Proof. intros H. unfold IfBuilder_new in H. invM H. reflexivity. Qed.

Lemma makeBeginElse_mode NDEBUG branchToMerge ib s ib' s' :
  makeBeginElse NDEBUG branchToMerge ib s = Ok (ib', s') ->
  generatingOpCodeForSpecConst s' = generatingOpCodeForSpecConst s.
Proof.
  intros H. destruct (makeBeginElse_inv _ _ _ _ _ H) as (Hphase & Hf & Hbp).
  unfold makeBeginElse in H.
  rewrite (bind_Ok _ _ s tt s) in H.
  2:{ destruct NDEBUG; [done|]. unfold assert_true. now rewrite Hphase. }
  destruct branchToMerge; invM H; reflexivity.
Qed.

Lemma makeBeginElse_valid NDEBUG branchToMerge ib s ib' s' :
  makeBeginElse NDEBUG branchToMerge ib s = Ok (ib', s') ->
  IfBuilder_valid ib s ->
  IfBuilder_valid ib' s' /\ buildPoint s' < length (blockHeap s') /\
  (NDEBUG = false -> currentBranch ib' = kElse).
Proof.
  intros H (Hh & Ht & Hm & He & Hf).
  pose proof (makeBeginElse_inv _ _ _ _ _ H) as (Hphase & _ & Hbp).
  rewrite makeBeginElse_Ok in H; [|done|tauto|done].
  apply Ok_inv in H as [-> ->].
  assert (Hlen : length ((if branchToMerge then
              alter (Block_addPredecessor (buildPoint s)) (mergeBlock ib)
                (alter (Block_addInstruction
                          (branchTo (blockIdAt (blockHeap s) (mergeBlock ib))))
                   (buildPoint s) (blockHeap s))
            else blockHeap s) ++ [Block_new (wrap32 (uniqueId s + 1)) (function ib)])
          = S (length (blockHeap s))).
  { rewrite length_app, length_branch_heap. cbn. lia. }
  unfold IfBuilder_valid.
  destruct NDEBUG, branchToMerge; cbn [set_currentBranch set_elseBlock
    set_thenPhiParent headerBlock thenBlock mergeBlock elseBlock function
    currentBranch blockHeap functionHeap buildPoint] in *;
    rewrite Hlen, length_alter;
    (repeat split; try lia; try done; intros e Heq; simplify_eq; lia).
Qed.

Lemma makeEndIf_valid NDEBUG branchToMerge ib s ib' s' :
  makeEndIf NDEBUG branchToMerge ib s = Ok (ib', s') ->
  IfBuilder_valid ib' s' /\ buildPoint s' = mergeBlock ib' /\
  thenPhiParent ib'
  = (if branchToMerge && negb (bool_decide (is_Some (elseBlock ib)))
     then blockIdAt (blockHeap s) (buildPoint s) else thenPhiParent ib).
Proof.
  intros H.
  pose proof (makeEndIf_spec _ _ _ _ _ _ H)
    as (-> & Hbp & Hlen & _ & (Hh & Ht & Hm & He & Hf) & _).
  assert (HF : length (functionHeap s') = length (functionHeap s)).
  { destruct (makeEndIf_inv _ _ _ _ _ H) as (Hphase & Hvalid & Hbp').
    rewrite makeEndIf_Ok in H by done. apply Ok_inv in H as [_ ->].
    cbn. now rewrite length_alter. }
  unfold IfBuilder_valid. rewrite Hlen, HF, Hbp.
  destruct NDEBUG, branchToMerge, (elseBlock ib) eqn:Hel; cbn;
    rewrite ?Hel; cbn; repeat split; try done.
Qed.

(** C2.  Once [makeEndIf] has returned, whatever straight-line code was
    emitted into the merge block since, a call [createMergePhi a b] made
    outside spec-constant mode appends to the merge block one [OpPhi]
    instruction whose result type is the declared type of [a] and whose
    operands are exactly [a], [thenPhiParent], [b], [elsePhiParent], and
    returns the result id of that instruction. *)
Theorem createMergePhi_emits_phi (getTypeId : Builder -> Id -> Id)
    (NDEBUG branchToMerge : bool) (a b : Id) (ib0 ib : IfBuilder)
    (s0 s1 s : Builder) (code : list Instruction) :
  makeEndIf NDEBUG branchToMerge ib0 s0 = Ok (ib, s1) ->
  emits s1 s code ->
  generatingOpCodeForSpecConst s = false ->
  exists mb,
    blockHeap s !! mergeBlock ib = Some mb /\
    let id := wrap32 (uniqueId s + 1) in
    let phi := mkInstruction id (getTypeId s a) OpPhi
                 [IdOperand a; IdOperand (thenPhiParent ib);
                  IdOperand b; IdOperand (elsePhiParent ib)] in
    createMergePhi getTypeId NDEBUG a b ib s
    = Ok (id, set_blockHeap
                (<[mergeBlock ib := Block_addInstruction phi mb]> (blockHeap s))
                (set_uniqueId id s)).
Proof.
  intros Hend Hcode Hmode.
  apply makeEndIf_spec in Hend as (Hib & Hbp1 & Hlen & _ & Hvalid & _).
  assert (Hmerge : mergeBlock ib = mergeBlock ib0).
  { rewrite Hib. destruct NDEBUG, branchToMerge, (elseBlock ib0); done. }
  assert (Hbp : buildPoint s = mergeBlock ib).
  { destruct Hcode as (-> & _). congruence. }
  assert (Hlt : buildPoint s < length (blockHeap s)).
  { rewrite (emits_length _ _ _ Hcode), Hlen, Hbp, Hmerge.
    destruct Hvalid as (_ & _ & Hm & _). exact Hm. }
  destruct (lookup_lt_is_Some_2 _ _ Hlt) as [mb Hmb]. rewrite Hbp in Hmb.
  exists mb. split; [exact Hmb|]. now apply createMergePhi_runtime.
Qed.

Lemma createMergePhi_emits_phi_witness :
  exists ib0 s0 ib s mb,
    IfBuilder_new 9 0 0 0 exampleBuilder = Ok (ib0, s0) /\
    makeEndIf false true ib0 s0 = Ok (ib, s) /\
    blockHeap s !! mergeBlock ib = Some mb /\
    createMergePhi exampleTypes false 20 21 ib s
    = Ok (13%Z,
          set_blockHeap
            (<[mergeBlock ib :=
                 Block_addInstruction
                   (mkInstruction 13 3 OpPhi
                      [IdOperand 20; IdOperand 11; IdOperand 21; IdOperand 2])
                   mb]> (blockHeap s))
            (set_uniqueId 13 s)).
Proof.
  call_result ib0 s0 (IfBuilder_new 9 0 0 0 exampleBuilder).
  call_result ib s (makeEndIf false true ib0 s0).
  destruct (createMergePhi_emits_phi exampleTypes false true 20 21 ib0 ib s0 s s []
              eq_refl (emits_refl s s eq_refl eq_refl eq_refl) eq_refl)
    as (mb & Hmb & Hphi).
  exists ib0, s0, ib, s, mb.
  split; [reflexivity|]. split; [reflexivity|]. split; [exact Hmb|].
  exact Hphi.
Defined.

(** C9.  Called while the spec-constant mode flag is set, [createMergePhi]
    is diverted through the constant-folding branch of [createQuadOp]: it
    returns the id of a constant-expression record (opcode [OpPhi] with the
    four operands) added to the constant table, appends nothing to any
    block, and leaves the instruction sequence of the merge block as it
    was. *)
Theorem createMergePhi_specConst_diverted (getTypeId : Builder -> Id -> Id)
    (NDEBUG : bool) (a b : Id) (ib : IfBuilder) (s : Builder) :
  generatingOpCodeForSpecConst s = true ->
  buildPoint s = mergeBlock ib ->
  let id := wrap32 (uniqueId s + 1) in
  let record := mkInstruction id (getTypeId s a) OpSpecConstantOp
                  [ImmediateOperand OpPhi;
                   IdOperand a; IdOperand (thenPhiParent ib);
                   IdOperand b; IdOperand (elsePhiParent ib)] in
  exists s',
    createMergePhi getTypeId NDEBUG a b ib s = Ok (id, s') /\
    constantsTypesGlobals s' = constantsTypesGlobals s ++ [record] /\
    blockHeap s' = blockHeap s /\
    instructionsAt (blockHeap s') (mergeBlock ib)
    = instructionsAt (blockHeap s) (mergeBlock ib) /\
    buildPoint s' = buildPoint s.
Proof.
  intros Hmode Hbp id record. eexists.
  rewrite createMergePhi_unfold, createQuadOp_folding by done.
  repeat split.
Qed.

Lemma createMergePhi_specConst_diverted_witness :
  exists s',
    createMergePhi exampleTypes false 20 21
      (mkIfBuilder 9 0 0 0 0 0 0 None 0 11 2 kMerge) exampleFolding
    = Ok (11%Z, s') /\
    constantsTypesGlobals s'
    = [mkInstruction 11 3 OpSpecConstantOp
         [ImmediateOperand OpPhi; IdOperand 20; IdOperand 11; IdOperand 21;
          IdOperand 2]] /\
    blockHeap s' = blockHeap exampleFolding /\
    instructionsAt (blockHeap s') 0 = instructionsAt (blockHeap exampleFolding) 0 /\
    buildPoint s' = buildPoint exampleFolding.
Proof.
  exact (createMergePhi_specConst_diverted exampleTypes false 20 21
           (mkIfBuilder 9 0 0 0 0 0 0 None 0 11 2 kMerge) exampleFolding
           eq_refl eq_refl).
Defined.

(** ** The phi parent of the then-region *)

Lemma makeBeginElse_false_thenPhiParent NDEBUG ib s ib' s' :
  makeBeginElse NDEBUG false ib s = Ok (ib', s') ->
  thenPhiParent ib' = thenPhiParent ib /\ elseBlock ib' = Some (length (blockHeap s)).
Proof.
  intros H. apply makeBeginElse_spec in H as (-> & _). now destruct NDEBUG.
Qed.

(** C10.  [makeBeginElse] called with [branchToMerge = false] leaves
    [thenPhiParent] as it was, and so does [makeEndIf] unless it branches a
    then-region without else to the merge; the constructor sets it to the
    id of the header block.  So in a construct whose then-region is never
    branched to the merge -- no else and [makeEndIf false], or
    [makeBeginElse false] and [makeEndIf] either way -- whatever the builder
    did in the regions (straight-line code, nested constructs, anything that
    leaves the construct's blocks in place), every call returns,
    [thenPhiParent] is still the id of the header block, and every later
    [createMergePhi a b] at the merge block emits a phi whose second
    operand, the parent of the then-value, is the header block's id. *)
Theorem thenPhiParent_without_then_branch (getTypeId : Builder -> Id -> Id)
    (NDEBUG : bool) (c : Id) (ctl tw ew : Z) (a b : Id) (s0 : Builder)
    (hb : Block) :
  blockHeap s0 !! buildPoint s0 = Some hb ->
  parent hb < length (functionHeap s0) ->
  let phiAtHeader (ib3 : IfBuilder) (s5 : Builder) :=
    thenPhiParent ib3 = blockId hb /\
    buildPoint s5 = mergeBlock ib3 /\
    IfBuilder_valid ib3 s5 /\
    forall s6 mb,
      buildPoint s6 = mergeBlock ib3 ->
      blockHeap s6 !! mergeBlock ib3 = Some mb ->
      generatingOpCodeForSpecConst s6 = false ->
      let id := wrap32 (uniqueId s6 + 1) in
      let phi := mkInstruction id (getTypeId s6 a) OpPhi
                   [IdOperand a; IdOperand (blockId hb);
                    IdOperand b; IdOperand (elsePhiParent ib3)] in
      createMergePhi getTypeId NDEBUG a b ib3 s6
      = Ok (id, set_blockHeap
                  (<[mergeBlock ib3 := Block_addInstruction phi mb]>
                     (blockHeap s6))
                  (set_uniqueId id s6)) in
  (forall ib s ib' s',
     makeBeginElse NDEBUG false ib s = Ok (ib', s') ->
     thenPhiParent ib' = thenPhiParent ib) /\
  (forall branchToMerge ib s ib' s',
     makeEndIf NDEBUG branchToMerge ib s = Ok (ib', s') ->
     branchToMerge = false \/ is_Some (elseBlock ib) ->
     thenPhiParent ib' = thenPhiParent ib) /\
  exists ib s1,
    IfBuilder_new c ctl tw ew s0 = Ok (ib, s1) /\
    thenPhiParent ib = blockId hb /\
    IfBuilder_valid ib s1 /\
    forall s2, IfBuilder_valid ib s2 ->
      (exists ib3 s3,
         makeEndIf NDEBUG false ib s2 = Ok (ib3, s3) /\
         phiAtHeader ib3 s3) /\
      (exists ib2 s3,
         makeBeginElse NDEBUG false ib s2 = Ok (ib2, s3) /\
         thenPhiParent ib2 = blockId hb /\
         IfBuilder_valid ib2 s3 /\
         buildPoint s3 < length (blockHeap s3) /\
         forall s4 branchToMerge,
           IfBuilder_valid ib2 s4 ->
           (branchToMerge = true -> buildPoint s4 < length (blockHeap s4)) ->
           exists ib3 s5,
             makeEndIf NDEBUG branchToMerge ib2 s4 = Ok (ib3, s5) /\
             phiAtHeader ib3 s5).
Proof.
  intros Hb Hf phiAtHeader.
  assert (Hkeep : forall branchToMerge ib s ib' s',
            makeEndIf NDEBUG branchToMerge ib s = Ok (ib', s') ->
            branchToMerge = false \/ is_Some (elseBlock ib) ->
            thenPhiParent ib' = thenPhiParent ib).
  { intros branchToMerge ib s ib' s' H Hcase.
    apply makeEndIf_valid in H as (_ & _ & ->).
    destruct Hcase as [->|Hel]; [reflexivity|].
    rewrite (bool_decide_eq_true_2 _ Hel). now rewrite andb_false_r. }
  assert (Hphi : forall branchToMerge ib s ib3 s5,
            makeEndIf NDEBUG branchToMerge ib s = Ok (ib3, s5) ->
            thenPhiParent ib3 = blockId hb ->
            phiAtHeader ib3 s5).
  { intros branchToMerge ib s ib3 s5 Hend Hthen.
    pose proof (makeEndIf_valid _ _ _ _ _ _ Hend) as (Hv5 & Hbp5 & _).
    split; [exact Hthen|]. split; [exact Hbp5|]. split; [exact Hv5|].
    intros s6 mb Hbp6 Hmb Hmode. rewrite <- Hthen.
    now apply createMergePhi_runtime. }
  split.
  { intros ib s ib' s' H. now apply makeBeginElse_false_thenPhiParent in H. }
  split; [exact Hkeep|].
  pose proof (IfBuilder_new_Ok c ctl tw ew s0 hb Hb Hf) as Hnew. cbv zeta in Hnew.
  match type of Hnew with _ = Ok (?x, ?y) =>
    assert (Hthen1 : thenPhiParent x = blockId hb) by reflexivity;
    set (ib := x) in *; set (s1 := y) in *; clearbody ib s1
  end.
  exists ib, s1. split; [exact Hnew|]. split; [exact Hthen1|].
  apply IfBuilder_new_valid in Hnew as (Hvalid1 & Hbp1 & Hphase1 & Hel1).
  split; [exact Hvalid1|].
  intros s2 Hv. split.
  - destruct (makeEndIf_returns NDEBUG false ib s2 Hv) as (ib3 & s3 & Hend).
    { discriminate. }
    { intros _. rewrite Hphase1. discriminate. }
    exists ib3, s3. split; [exact Hend|].
    apply (Hphi _ _ _ _ _ Hend).
    rewrite (Hkeep _ _ _ _ _ Hend (or_introl eq_refl)). exact Hthen1.
  - destruct (makeBeginElse_returns NDEBUG false ib s2 Hv) as (ib2 & s3 & Hbegin).
    { discriminate. }
    { intros _. exact Hphase1. }
    exists ib2, s3. split; [exact Hbegin|].
    pose proof (makeBeginElse_false_thenPhiParent _ _ _ _ _ Hbegin) as [Hthen2 Hel2].
    rewrite Hthen1 in Hthen2. split; [exact Hthen2|].
    pose proof (makeBeginElse_valid _ _ _ _ _ _ Hbegin Hv) as (Hv3 & Hp3 & Hphase3).
    split; [exact Hv3|]. split; [exact Hp3|].
    intros s4 branchToMerge Hv4 Hp4.
    destruct (makeEndIf_returns NDEBUG branchToMerge ib2 s4 Hv4 Hp4)
      as (ib3 & s5 & Hend).
    { intros HN. rewrite (Hphase3 HN). discriminate. }
    exists ib3, s5. split; [exact Hend|].
    apply (Hphi _ _ _ _ _ Hend).
    rewrite (Hkeep _ _ _ _ _ Hend (or_intror (ex_intro _ _ Hel2))).
    exact Hthen2.
Qed.

Lemma thenPhiParent_without_then_branch_witness :
  exists ib s1 ib2 s3 ib3 s5 mb,
    IfBuilder_new 9 0 0 0 exampleBuilder = Ok (ib, s1) /\
    makeBeginElse false false ib s1 = Ok (ib2, s3) /\
    makeEndIf false true ib2 s3 = Ok (ib3, s5) /\
    thenPhiParent ib3 = 2%Z /\
    blockHeap s5 !! mergeBlock ib3 = Some mb /\
    createMergePhi exampleTypes false 20 21 ib3 s5
    = Ok (wrap32 (uniqueId s5 + 1),
          set_blockHeap
            (<[mergeBlock ib3 :=
                 Block_addInstruction
                   (mkInstruction (wrap32 (uniqueId s5 + 1)) 3 OpPhi
                      [IdOperand 20; IdOperand 2; IdOperand 21;
                       IdOperand (elsePhiParent ib3)]) mb]> (blockHeap s5))
            (set_uniqueId (wrap32 (uniqueId s5 + 1)) s5)).
Proof.
  destruct (thenPhiParent_without_then_branch exampleTypes false 9 0 0 0 20 21
              exampleBuilder (mkBlock 2 0 [] []) eq_refl (Nat.lt_0_succ 0))
    as (_ & _ & ib & s1 & Hnew & _ & Hv1 & Hrest).
  destruct (Hrest s1 Hv1) as (_ & ib2 & s3 & Hbegin & _ & Hv3 & Hp3 & Hrest2).
  destruct (Hrest2 s3 true Hv3 (fun _ => Hp3))
    as (ib3 & s5 & Hend & Hthen & Hbp5 & Hv5 & Hrest3).
  assert (Hmode : generatingOpCodeForSpecConst s5 = false).
  { apply makeEndIf_spec in Hend as (_ & _ & _ & -> & _).
    apply makeBeginElse_mode in Hbegin. rewrite Hbegin.
    apply IfBuilder_new_mode in Hnew. now rewrite Hnew. }
  destruct Hv5 as (_ & _ & Hm5 & _).
  destruct (lookup_lt_is_Some_2 _ _ Hm5) as [mb Hmb].
  exists ib, s1, ib2, s3, ib3, s5, mb.
  split; [exact Hnew|]. split; [exact Hbegin|]. split; [exact Hend|].
  split; [exact Hthen|]. split; [exact Hmb|].
  exact (Hrest3 s5 mb Hbp5 Hmb Hmode).
Defined.

(** ** The shape of a closed construct *)

Lemma lookup_fresh_0 {A} (h : list A) (x y : A) n :
  n = length h -> (h ++ [x; y]) !! n = Some x.
Proof. intros ->. now apply list_lookup_middle. Qed.

Lemma lookup_fresh_1 {A} (h : list A) (x y : A) n :
  n = S (length h) -> (h ++ [x; y]) !! n = Some y.
Proof.
  intros ->. rewrite (cons_middle x h [y]), app_assoc.
  apply list_lookup_middle. rewrite length_app. cbn. lia.
Qed.

Lemma lookup_snoc {A} (h : list A) (x : A) n :
  n = length h -> (h ++ [x]) !! n = Some x.
Proof. intros ->. now apply list_lookup_middle. Qed.

Ltac heap_length :=
  repeat (rewrite length_alter || rewrite length_app); cbn [length]; lia.

Ltac valid_tac :=
  unfold IfBuilder_valid; proj_simpl;
  repeat match goal with |- _ /\ _ => split end;
  intros; simplify_eq; try done; heap_length.

Lemma blockIdAt_fresh_0 h x y n :
  n = length h -> blockIdAt (h ++ [x; y]) n = blockId x.
Proof. intros H. apply blockIdAt_lookup. now apply lookup_fresh_0. Qed.

Lemma blockIdAt_fresh_1 h x y n :
  n = S (length h) -> blockIdAt (h ++ [x; y]) n = blockId y.
Proof. intros H. apply blockIdAt_lookup. now apply lookup_fresh_1. Qed.

Lemma blockIdAt_snoc h x n :
  n = length h -> blockIdAt (h ++ [x]) n = blockId x.
Proof. intros H. apply blockIdAt_lookup. now apply lookup_snoc. Qed.

Ltac id_norm :=
  repeat first
    [ rewrite blockIdAt_alter by done
    | rewrite blockIdAt_fresh_0 by heap_length
    | rewrite blockIdAt_fresh_1 by heap_length
    | rewrite blockIdAt_snoc by heap_length
    | rewrite blockIdAt_app_l by heap_length ].

Lemma set_currentBranch_eta NDEBUG v x :
  set_currentBranch NDEBUG v x
  = mkIfBuilder (condition x) (control x) (thenWeight x) (elseWeight x)
      (function x) (headerBlock x) (thenBlock x) (elseBlock x) (mergeBlock x)
      (thenPhiParent x) (elsePhiParent x)
      (if NDEBUG then currentBranch x else v).
Proof. destruct x. now destruct NDEBUG. Qed.

Ltac heap_lookup :=
  repeat first
    [ rewrite list_lookup_alter_eq
    | rewrite list_lookup_alter_ne by lia
    | rewrite lookup_fresh_0 by heap_length
    | rewrite lookup_fresh_1 by heap_length
    | rewrite lookup_snoc by heap_length
    | rewrite lookup_app_l by heap_length ].




(** * The primitive converter *)

Module PrimitiveConverterFacts.
Import d3d12.

Lemma PrimitiveType_eqb_eq a b : PrimitiveType_eqb a b = true <-> a = b.
Proof.
  destruct a, b; cbn; split; intros H; try done.
  - apply Z.eqb_eq in H. now subst.
  - apply Z.eqb_eq. now inversion H.
Qed.

Lemma PrimitiveType_eqb_fan t :
  t <> kTriangleFan -> PrimitiveType_eqb t kTriangleFan = false.
Proof.
  intros Hne. destruct (PrimitiveType_eqb t kTriangleFan) eqn:E; [|done].
  now apply PrimitiveType_eqb_eq in E.
Qed.

(** [xe::align] to 16 rounds up to the next multiple of 16. *)
Lemma align_16 v :
  (0 <= v <= 4294967280)%Z -> align v 16 = (16 * ((v + 15) / 16))%Z.
Proof.
  intros Hv. unfold align.
  rewrite wrap32_small by (change (2 ^ 32)%Z with 4294967296%Z; lia).
  replace (wrap32 (Z.lnot (16 - 1))) with (Z.shiftl (Z.ones 28) 4) by reflexivity.
  replace (v + 16 - 1)%Z with (v + 15)%Z by lia.
  set (x := (v + 15)%Z).
  assert (Hx : (0 <= x < 2 ^ 32)%Z) by (change (2 ^ 32)%Z with 4294967296%Z; lia).
  replace (16 * (x / 16))%Z with (Z.shiftl (Z.shiftr x 4) 4)
    by (rewrite Z.shiftl_mul_pow2, Z.shiftr_div_pow2 by lia;
        change (2 ^ 4)%Z with 16%Z; lia).
  apply Z.bits_inj'. intros i Hi.
  rewrite Z.land_spec, !Z.shiftl_spec by done.
  destruct (Z.lt_ge_cases i 4) as [Hlt|Hge].
  - rewrite (Z.testbit_neg_r (Z.ones 28)), (Z.testbit_neg_r (Z.shiftr x 4)) by lia.
    apply andb_false_r.
  - rewrite Z.testbit_ones by lia.
    destruct (Z.lt_ge_cases (i - 4) 28) as [Hlt28|Hge28].
    + rewrite Z.shiftr_spec by lia. replace (i - 4 + 4)%Z with i by lia.
      replace ((0 <=? i - 4)%Z && (i - 4 <? 28)%Z) with true.
      * apply andb_true_r.
      * symmetry. apply andb_true_iff. split; [apply Z.leb_le|apply Z.ltb_lt]; lia.
    + rewrite Z.shiftr_spec by lia. replace (i - 4 + 4)%Z with i by lia.
      replace (Z.testbit x i) with false; [done|].
      symmetry. apply Z.bits_above_log2; [lia|].
      destruct (Z.eq_dec x 0%Z) as [Hx0|Hx0]; [rewrite Hx0; cbn; lia|].
      apply Z.log2_lt_pow2; [lia|].
      apply Z.lt_le_trans with (2 ^ 32)%Z; [lia|].
      apply Z.pow_le_mono_r; lia.
Qed.

Section Facts.
Context `{Platform}.

Lemma fanLoop_length source width remaining : forall i target,
  length (fanLoop source width remaining i target) = 3 * remaining.
Proof.
  induction remaining as [|r IH]; intros i target; cbn [fanLoop length].
  - reflexivity.
  - rewrite IH. lia.
Qed.

Lemma lookup_cons_succ {A} (x : A) (l : list A) (n : nat) :
  (x :: l) !! S n = l !! n.
Proof. reflexivity. Qed.

Lemma store_eq (a b : Z) (source : Z -> Z) (i j : Z) :
  a = b -> i = j -> Some (a, source i) = Some (b, source j).
Proof. now intros -> ->. Qed.

Lemma fanLoop_lookup source width remaining : forall i target (j : nat),
  j < remaining ->
  fanLoop source width remaining i target !! (3 * j)
  = Some ((target + 3 * Z.of_nat j * width)%Z, source (i + Z.of_nat j)%Z) /\
  fanLoop source width remaining i target !! (3 * j + 1)
  = Some ((target + (3 * Z.of_nat j + 1) * width)%Z,
          source (i + Z.of_nat j - 1)%Z) /\
  fanLoop source width remaining i target !! (3 * j + 2)
  = Some ((target + (3 * Z.of_nat j + 2) * width)%Z, source 0%Z).
Proof.
  induction remaining as [|r IH]; intros i target j Hj; [lia|].
  destruct j as [|j].
  - cbn [fanLoop Nat.mul Nat.add]. cbn [lookup list_lookup].
    change (Z.of_nat 0) with 0%Z.
    repeat split; apply store_eq; ring.
  - replace (3 * S j) with (S (S (S (3 * j)))) by lia.
    destruct (IH (i + 1)%Z (target + 3 * width)%Z j) as (H0 & H1 & H2); [lia|].
    cbn [fanLoop]. cbn [Nat.add]. rewrite !lookup_cons_succ.
    rewrite H0, H1, H2, Nat2Z.inj_succ.
    repeat split; apply store_eq; ring.
Qed.

Lemma fanLoop_last source width remaining : forall i target,
  0 < remaining ->
  list.last (fanLoop source width remaining i target)
  = Some ((target + (3 * Z.of_nat remaining - 1) * width)%Z, source 0%Z).
Proof.
  induction remaining as [|r IH]; intros i target Hr; [lia|].
  destruct r as [|r].
  - cbn. apply store_eq; ring.
  - specialize (IH (i + 1)%Z (target + 3 * width)%Z ltac:(lia)).
    cbn [fanLoop] in *. rewrite !last_cons_cons in *. rewrite IH.
    rewrite (Nat2Z.inj_succ (S r)). apply store_eq; ring.
Qed.


Lemma ConvertPrimitives_fan this address index_count format endianness g c :
  (3 <= index_count < 2 ^ 32)%Z ->
  resetEnabled this = false ->
  ConvertPrimitives this kTriangleFan address index_count format endianness g c
  = match RequestFull (buffer_pool_ this)
            (align (wrap32 (index_count * indexSize format)) 16) with
    | (None, pool) =>
        mkConversion kFailed g c
          (mkPrimitiveConverter (register_file_ this) (memory_ this) pool) []
    | (Some (mapping, gpu_address), pool) =>
        mkConversion kConverted (wrap64 gpu_address)
          (wrap32 (3 * (index_count - 2)))
          (mkPrimitiveConverter (register_file_ this) (memory_ this) pool)
          (fanLoop (sourceIndices this format address) (indexSize format)
                   (Z.to_nat (index_count - 2)) 2 mapping)
    end.
Proof.
  intros Hn Hreset. unfold ConvertPrimitives. fold (resetEnabled this).
  rewrite Hreset. cbn [PrimitiveType_eqb negb orb andb].
  destruct (Z.ltb_spec index_count 3) as [Hlt|_]; [lia|].
  unfold AllocateIndices.
  destruct (Z.eqb_spec index_count 0) as [H0|_]; [lia|].
  change (Z.land 0 15) with 0%Z. cbn [Z.eqb negb].
  rewrite (wrap32_small (index_count - 2))
    by (change (2 ^ 32)%Z with 4294967296%Z in *; lia).
  destruct (RequestFull _ _) as [[[mapping gpu]|] pool]; [|reflexivity].
  rewrite !Z.add_0_r. unfold sourceIndices, indexSize.
  destruct format; reflexivity.
Qed.

Lemma ConvertPrimitives_not_fan this source_type address index_count format
    endianness g c :
  source_type <> kTriangleFan ->
  ConvertPrimitives this source_type address index_count format endianness g c
  = mkConversion kConversionNotNeeded g c this [].
Proof.
  intros Hne. unfold ConvertPrimitives.
  rewrite (PrimitiveType_eqb_fan _ Hne). cbn [negb].
  repeat match goal with |- context [if ?b then _ else _] => destruct b end;
    reflexivity.
Qed.

(** X1: Only triangle fans are converted: for every other primitive type,
    strips and loops with primitive reset enabled included, the call answers
    [kConversionNotNeeded], requests nothing from the pool, stores nothing
    and leaves both output parameters as they were. *)
Theorem ConvertPrimitives_other_types_untouched this source_type address
    index_count format endianness g c :
  source_type <> kTriangleFan ->
  ConvertPrimitives this source_type address index_count format endianness g c
  = mkConversion kConversionNotNeeded g c this [].
Proof. apply ConvertPrimitives_not_fan. Qed.

(** X2: A triangle fan of fewer than three indices is [kPrimitiveEmpty], also
    with primitive reset enabled; a fan of three or more with primitive reset
    enabled is [kFailed].  Neither reads the indices, requests a buffer or
    touches the output parameters. *)
Theorem ConvertPrimitives_fan_rejected this address index_count format
    endianness g c :
  ((index_count < 3)%Z ->
   ConvertPrimitives this kTriangleFan address index_count format endianness g c
   = mkConversion kPrimitiveEmpty g c this []) /\
  ((3 <= index_count)%Z -> resetEnabled this = true ->
   ConvertPrimitives this kTriangleFan address index_count format endianness g c
   = mkConversion kFailed g c this []).
Proof.
  split.
  - intros Hlt. unfold ConvertPrimitives. cbn [PrimitiveType_eqb negb orb andb].
    destruct (Z.ltb_spec index_count 3) as [_|Hge]; [reflexivity|lia].
  - intros Hge Hreset. unfold ConvertPrimitives. fold (resetEnabled this).
    rewrite Hreset. cbn [PrimitiveType_eqb negb orb andb].
    destruct (Z.ltb_spec index_count 3) as [Hlt|_]; [lia|reflexivity].
Qed.

(** X3: A triangle fan of [n >= 3] indices, without primitive reset, for which
    the pool grants the buffer and whose [3 * (n - 2)] converted indices fit
    in the bytes requested (the request is made for [n] indices), is
    [kConverted]: the GPU address of the buffer and the count [3 * (n - 2)]
    (modulo 2^32) go to the output parameters, and the stores are the
    [n - 2] triangles in order, triangle [j] being the source indices
    [j + 2], [j + 1], [0] stored at consecutive elements [3j], [3j + 1],
    [3j + 2] of the buffer.  Every index read lies in the source range
    [0, n), and every store in the bytes granted. *)
Theorem ConvertPrimitives_fan_converted this address index_count format
    endianness g c mapping gpu_address pool :
  (3 <= index_count < 2 ^ 32)%Z ->
  resetEnabled this = false ->
  let size := align (wrap32 (index_count * indexSize format)) 16 in
  RequestFull (buffer_pool_ this) size = (Some (mapping, gpu_address), pool) ->
  (3 * (index_count - 2) * indexSize format <= size)%Z ->
  let r := ConvertPrimitives this kTriangleFan address index_count format
             endianness g c in
  let source := sourceIndices this format address in
  let width := indexSize format in
  result r = kConverted /\
  gpu_address_out r = wrap64 gpu_address /\
  index_count_out r = wrap32 (3 * (index_count - 2)) /\
  ((index_count <= 1431655767)%Z ->
   index_count_out r = (3 * (index_count - 2))%Z) /\
  converter r = mkPrimitiveConverter (register_file_ this) (memory_ this) pool /\
  Z.of_nat (length (stores r)) = (3 * (index_count - 2))%Z /\
  forall j : nat, (Z.of_nat j < index_count - 2)%Z ->
    stores r !! (3 * j)
    = Some ((mapping + 3 * Z.of_nat j * width)%Z, source (Z.of_nat j + 2)%Z) /\
    stores r !! (3 * j + 1)
    = Some ((mapping + (3 * Z.of_nat j + 1) * width)%Z,
            source (Z.of_nat j + 1)%Z) /\
    stores r !! (3 * j + 2)
    = Some ((mapping + (3 * Z.of_nat j + 2) * width)%Z, source 0%Z) /\
    (0 <= Z.of_nat j + 1 < index_count)%Z /\
    (0 <= Z.of_nat j + 2 < index_count)%Z /\
    (mapping <= mapping + 3 * Z.of_nat j * width)%Z /\
    (mapping + (3 * Z.of_nat j + 2) * width + width <= mapping + size)%Z.
Proof.
  intros Hn Hreset size Hpool Hfit r source width. subst r source width.
  rewrite ConvertPrimitives_fan by done. fold size. rewrite Hpool. cbn [result
    gpu_address_out index_count_out converter stores].
  split; [reflexivity|]. split; [reflexivity|]. split; [reflexivity|].
  split; [intros Hsmall; apply wrap32_small;
          change (2 ^ 32)%Z with 4294967296%Z; lia|].
  split; [reflexivity|].
  split; [rewrite fanLoop_length; lia|].
  intros j Hj.
  destruct (fanLoop_lookup (sourceIndices this format address)
              (indexSize format) (Z.to_nat (index_count - 2)) 2 mapping j)
    as (H0 & H1 & H2); [lia|].
  rewrite H0, H1, H2.
  assert (Hw : (2 <= indexSize format <= 4)%Z)
    by (unfold indexSize; destruct format; cbn; lia).
  repeat split; try (apply store_eq; ring); try lia; nia.
Qed.

(** X4: When the pool answers with nothing, the conversion of a fan is
    [kFailed]: both output parameters keep their values and nothing is
    stored. *)
Theorem ConvertPrimitives_fan_allocation_failure this address index_count
    format endianness g c pool :
  (3 <= index_count < 2 ^ 32)%Z ->
  resetEnabled this = false ->
  RequestFull (buffer_pool_ this)
    (align (wrap32 (index_count * indexSize format)) 16)
  = (None, pool) ->
  ConvertPrimitives this kTriangleFan address index_count format endianness g c
  = mkConversion kFailed g c
      (mkPrimitiveConverter (register_file_ this) (memory_ this) pool) [].
Proof.
  intros Hn Hreset Hpool. rewrite ConvertPrimitives_fan by done.
  now rewrite Hpool.
Qed.

(** X5: The buffer a converted fan is written to was requested for
    [index_count] indices, rounded up to 16 bytes, while [3 * (index_count -
    2)] indices are stored: the last store ends inside the requested bytes
    only for fans of at most four 16-bit indices or three 32-bit indices,
    and past them for every longer fan. *)
Theorem ConvertPrimitives_fan_stores_vs_request this address index_count
    format endianness g c mapping gpu_address pool :
  (3 <= index_count <= 65535)%Z ->
  resetEnabled this = false ->
  let size := align (wrap32 (index_count * indexSize format)) 16 in
  RequestFull (buffer_pool_ this) size = (Some (mapping, gpu_address), pool) ->
  let r := ConvertPrimitives this kTriangleFan address index_count format
             endianness g c in
  let width := indexSize format in
  exists last_address value,
    list.last (stores r) = Some (last_address, value) /\
    last_address = (mapping + (3 * (index_count - 2) - 1) * width)%Z /\
    ((last_address + width <= mapping + size)%Z
     <-> (index_count <= if isInt32 format then 3 else 4)%Z).
Proof.
  intros Hn Hreset size Hpool r width. subst r.
  rewrite ConvertPrimitives_fan
    by (done || change (2 ^ 32)%Z with 4294967296%Z; lia).
  fold size. rewrite Hpool. cbn [stores].
  rewrite fanLoop_last by lia.
  eexists _, _. split; [reflexivity|].
  rewrite Z2Nat.id by lia. split; [reflexivity|].
  subst size width. unfold indexSize.
  rewrite wrap32_small
    by (change (2 ^ 32)%Z with 4294967296%Z; destruct format; cbn; lia).
  rewrite align_16 by (destruct format; cbn; lia).
  destruct format; cbn [isInt32]; split; intros Hle;
    Z.div_mod_to_equations; lia.
Qed.

(** X6: The replacement type agrees with the conversion: it never is a triangle
    fan and replacing twice is replacing once; a call that answers
    [kConverted] was given a triangle fan, whose replacement type is the
    triangle list, and wrote a whole number of triangles; and a type that is
    its own replacement is never converted. *)
Theorem replacement_type_matches_conversion :
  (forall type,
     GetReplacementPrimitiveType (GetReplacementPrimitiveType type)
     = GetReplacementPrimitiveType type /\
     GetReplacementPrimitiveType type <> kTriangleFan /\
     (type <> kTriangleFan -> GetReplacementPrimitiveType type = type)) /\
  (forall this type address index_count format endianness g c,
     (0 <= index_count < 2 ^ 32)%Z ->
     let r := ConvertPrimitives this type address index_count format
                endianness g c in
     (result r = kConverted ->
      type = kTriangleFan /\
      GetReplacementPrimitiveType type = kTriangleList /\
      Z.of_nat (length (stores r)) = (3 * (index_count - 2))%Z) /\
     (GetReplacementPrimitiveType type = type ->
      result r = kConversionNotNeeded)).
Proof.
  split.
  - intros type. unfold GetReplacementPrimitiveType.
    destruct (PrimitiveType_eqb type kTriangleFan) eqn:E.
    + apply PrimitiveType_eqb_eq in E. subst. cbn. repeat split; done.
    + rewrite E. repeat split; try done.
      intros ->. now rewrite (proj2 (PrimitiveType_eqb_eq _ _) eq_refl) in E.
  - intros this type address n format e g c Hn r. subst r.
    destruct (PrimitiveType_eqb type kTriangleFan) eqn:E.
    + apply PrimitiveType_eqb_eq in E. subst type. split; [|discriminate].
      destruct (Z.lt_ge_cases n 3) as [Hlt|Hge].
      { unfold ConvertPrimitives. cbn [PrimitiveType_eqb negb orb andb].
        destruct (Z.ltb_spec n 3); [discriminate|lia]. }
      destruct (resetEnabled this) eqn:Hreset.
      { unfold ConvertPrimitives. fold (resetEnabled this). rewrite Hreset.
        cbn [PrimitiveType_eqb negb orb andb].
        destruct (Z.ltb_spec n 3); discriminate. }
      rewrite ConvertPrimitives_fan by (done || lia).
      destruct (RequestFull _ _) as [[[mapping gpu]|] pool]; [|discriminate].
      intros _. cbn [stores]. rewrite fanLoop_length. repeat split. lia.
    + assert (Hne : type <> kTriangleFan).
      { intros ->. now rewrite (proj2 (PrimitiveType_eqb_eq _ _) eq_refl) in E. }
      rewrite ConvertPrimitives_not_fan by done. split; [discriminate|done].
Qed.

Lemma align_bound value alignment :
  (0 <= align value alignment < 4294967296)%Z.
Proof.
  unfold align.
  assert (Hx : forall z, (0 <= wrap32 z < 4294967296)%Z).
  { intros z. unfold wrap32. change (2 ^ 32)%Z with 4294967296%Z.
    apply Z.mod_pos_bound. lia. }
  pose proof (Hx (value + alignment - 1)%Z) as Ha.
  pose proof (Hx (Z.lnot (alignment - 1))) as Hb.
  set (x := wrap32 (value + alignment - 1)) in *.
  set (y := wrap32 (Z.lnot (alignment - 1))) in *.
  assert (H0 : (0 <= Z.land x y)%Z) by (apply Z.land_nonneg; lia).
  split; [exact H0|].
  destruct (Z.eq_dec (Z.land x y) 0%Z) as [Hz|Hne]; [lia|].
  destruct (Z.eq_dec x 0%Z) as [Hx0|Hx0].
  { rewrite Hx0, Z.land_0_l in Hne. lia. }
  change 4294967296%Z with (2 ^ 32)%Z.
  apply Z.log2_lt_pow2; [lia|].
  pose proof (Z.log2_land x y ltac:(lia) ltac:(lia)) as Hl.
  assert (Z.log2 x < 32)%Z by (apply Z.log2_lt_pow2; lia).
  lia.
Qed.

(** X7: [AllocateIndices] returns [nullptr] for a count of zero without asking
    the pool.  For a count whose bytes [count * indexSize] are at most
    [2^32 - 32] it asks for these bytes rounded up to 16, plus 16 when the
    low four bits of [simd_offset] are not zero: a multiple of 16 that holds
    the [count] indices behind the offset; when the pool grants them the
    pointer returned and [gpu_address_out] are the mapping and the GPU
    address moved forward by that offset, and when it does not, [nullptr] is
    returned and [gpu_address_out] keeps its value.  For a count whose bytes
    reach [2^32] the 32-bit size has wrapped: the request is for fewer bytes
    than the indices take. *)
Theorem AllocateIndices_region pool format count simd_offset g :
  (count = 0%Z -> AllocateIndices pool format count simd_offset g = (None, g, pool)) /\
  ((0 < count)%Z -> (count * indexSize format <= 4294967264)%Z ->
   let offset := Z.land simd_offset 15 in
   let size :=
     (align (count * indexSize format) 16
      + (if (offset =? 0)%Z then 0 else 16))%Z in
   (0 <= offset < 16)%Z /\
   (size mod 16 = 0)%Z /\
   (offset + count * indexSize format <= size)%Z /\
   AllocateIndices pool format count simd_offset g
   = match RequestFull pool size with
     | (None, pool') => (None, g, pool')
     | (Some (mapping, gpu_address), pool') =>
         (Some (mapping + offset)%Z, wrap64 (gpu_address + offset), pool')
     end) /\
  ((4294967296 <= count * indexSize format)%Z ->
   exists size,
     (0 <= size < 4294967296)%Z /\
     (size < count * indexSize format)%Z /\
     AllocateIndices pool format count simd_offset g
     = match RequestFull pool size with
       | (None, pool') => (None, g, pool')
       | (Some (mapping, gpu_address), pool') =>
           (Some (mapping + Z.land simd_offset 15)%Z,
            wrap64 (gpu_address + Z.land simd_offset 15), pool')
       end).
Proof.
  split; [|split].
  - intros ->. reflexivity.
  - intros Hpos Hmax offset size.
    assert (Hw : (2 <= indexSize format <= 4)%Z)
      by (unfold indexSize; destruct format; cbn; lia).
    assert (Hoff : (0 <= offset < 16)%Z).
    { subst offset. change 15%Z with (Z.ones 4). rewrite Z.land_ones by lia.
      apply Z.mod_pos_bound. lia. }
    assert (Halign : align (count * indexSize format) 16
                     = (16 * ((count * indexSize format + 15) / 16))%Z)
      by (apply align_16; nia).
    split; [exact Hoff|]. split.
    { subst size. rewrite Halign.
      destruct (offset =? 0)%Z; Z.div_mod_to_equations; lia. }
    split.
    { subst size. rewrite Halign.
      destruct (Z.eqb_spec offset 0); Z.div_mod_to_equations; lia. }
    unfold AllocateIndices.
    destruct (Z.eqb_spec count 0) as [H0|_]; [lia|].
    rewrite (wrap32_small (count * indexSize format))
      by (change (2 ^ 32)%Z with 4294967296%Z; nia).
    fold offset. subst size.
    destruct (Z.eqb_spec offset 0) as [Hz|Hnz]; cbn [negb].
    + rewrite Z.add_0_r. reflexivity.
    + rewrite wrap32_small; [reflexivity|].
      rewrite Halign. change (2 ^ 32)%Z with 4294967296%Z.
      Z.div_mod_to_equations; lia.
  - intros Hbig.
    assert (Hw : (2 <= indexSize format <= 4)%Z)
      by (unfold indexSize; destruct format; cbn; lia).
    unfold AllocateIndices.
    destruct (Z.eqb_spec count 0) as [H0|_]; [nia|].
    cbv zeta.
    match goal with
    | |- context [RequestFull pool ?sz] => exists sz
    end.
    split; [|split; [|reflexivity]].
    + destruct (negb (Z.land simd_offset 15 =? 0)%Z).
      * unfold wrap32. change (2 ^ 32)%Z with 4294967296%Z.
        apply Z.mod_pos_bound. lia.
      * apply align_bound.
    + assert (forall z, (0 <= z < 4294967296)%Z -> (z < count * indexSize format)%Z)
        as Hlt by (intros; lia).
      apply Hlt.
      destruct (negb (Z.land simd_offset 15 =? 0)%Z).
      * unfold wrap32. change (2 ^ 32)%Z with 4294967296%Z.
        apply Z.mod_pos_bound. lia.
      * apply align_bound.
Qed.

End Facts.

Lemma ConvertPrimitives_other_types_untouched_witness :
  @ConvertPrimitives examplePlatform exampleResetConverter kTriangleStrip 0 100
    kInt16 tt 7 9
  = mkConversion kConversionNotNeeded 7 9 exampleResetConverter [].
Proof.
  apply (@ConvertPrimitives_other_types_untouched examplePlatform).
  discriminate.
Defined.

Lemma ConvertPrimitives_fan_rejected_witness :
  @ConvertPrimitives examplePlatform exampleResetConverter kTriangleFan 0 2
    kInt16 tt 7 9
  = mkConversion kPrimitiveEmpty 7 9 exampleResetConverter [] /\
  @ConvertPrimitives examplePlatform exampleResetConverter kTriangleFan 0 5
    kInt16 tt 7 9
  = mkConversion kFailed 7 9 exampleResetConverter [].
Proof.
  destruct (@ConvertPrimitives_fan_rejected examplePlatform
              exampleResetConverter 0 2 kInt16 tt 7 9) as [Hempty _].
  destruct (@ConvertPrimitives_fan_rejected examplePlatform
              exampleResetConverter 0 5 kInt16 tt 7 9) as [_ Hfailed].
  split.
  - apply Hempty. lia.
  - apply Hfailed; [lia | reflexivity].
Defined.

Lemma ConvertPrimitives_fan_converted_witness :
  let r := @ConvertPrimitives examplePlatform exampleConverter kTriangleFan 0 4
             kInt16 tt 7 9 in
  result r = kConverted /\
  gpu_address_out r = 1048576%Z /\
  index_count_out r = 6%Z /\
  stores r
  = [(65536, 102); (65538, 101); (65540, 100);
     (65542, 103); (65544, 102); (65546, 100)]%Z /\
  stores r !! 3 = Some (65542, 103)%Z /\
  (65546 + 2 <= 65536 + 16)%Z.
Proof.
  destruct (@ConvertPrimitives_fan_converted examplePlatform exampleConverter
              0 4 kInt16 tt 7 9 65536 1048576 16%Z)
    as (Hres & Hgpu & Hcount & _ & _ & _ & Hstores).
  - change (2 ^ 32)%Z with 4294967296%Z. lia.
  - reflexivity.
  - reflexivity.
  - vm_compute. discriminate.
  - cbv zeta. split; [exact Hres|]. split; [exact Hgpu|].
    split; [exact Hcount|]. split; [reflexivity|].
    split; [exact (proj1 (Hstores 1 ltac:(lia)))|].
    exact (proj2 (proj2 (proj2 (proj2 (proj2 (proj2 (Hstores 1 ltac:(lia)))))))).
Defined.

Lemma ConvertPrimitives_fan_allocation_failure_witness :
  @ConvertPrimitives examplePlatform exampleFullConverter kTriangleFan 0 5
    kInt16 tt 7 9
  = mkConversion kFailed 7 9 exampleFullConverter [].
Proof.
  apply (@ConvertPrimitives_fan_allocation_failure examplePlatform
           exampleFullConverter 0 5 kInt16 tt 7 9 4090%Z).
  - change (2 ^ 32)%Z with 4294967296%Z. lia.
  - reflexivity.
  - reflexivity.
Defined.

Lemma ConvertPrimitives_fan_stores_vs_request_witness :
  exists last_address value,
    list.last (stores (@ConvertPrimitives examplePlatform exampleConverter
                         kTriangleFan 0 5 kInt16 tt 7 9))
    = Some (last_address, value) /\
    last_address = (65536 + (3 * (5 - 2) - 1) * 2)%Z /\
    ((last_address + 2 <= 65536 + 16)%Z <-> (5 <= 4)%Z).
Proof.
  apply (@ConvertPrimitives_fan_stores_vs_request examplePlatform
           exampleConverter 0 5 kInt16 tt 7 9 65536 1048576 16%Z).
  - lia.
  - reflexivity.
  - reflexivity.
Defined.

Lemma replacement_type_matches_conversion_witness :
  GetReplacementPrimitiveType kTriangleFan = kTriangleList /\
  Z.of_nat (length (stores (@ConvertPrimitives examplePlatform exampleConverter
                              kTriangleFan 0 5 kInt16 tt 7 9))) = 9%Z /\
  result (@ConvertPrimitives examplePlatform exampleConverter kTriangleList 0 6
            kInt16 tt 7 9) = kConversionNotNeeded.
Proof.
  destruct (@replacement_type_matches_conversion examplePlatform) as [_ Hconv].
  assert (Hrange : forall n, (0 <= n <= 65535)%Z -> (0 <= n < 2 ^ 32)%Z).
  { intros n Hn. change (2 ^ 32)%Z with 4294967296%Z. lia. }
  destruct (Hconv exampleConverter kTriangleFan 0%Z 5%Z kInt16 tt 7%Z 9%Z
              (Hrange 5%Z ltac:(lia))) as [Hfan _].
  destruct (Hconv exampleConverter kTriangleList 0%Z 6%Z kInt16 tt 7%Z 9%Z
              (Hrange 6%Z ltac:(lia))) as [_ Hlist].
  destruct (Hfan eq_refl) as (_ & Hrep & Hlen).
  split; [exact Hrep|]. split; [exact Hlen|]. exact (Hlist eq_refl).
Defined.

Lemma AllocateIndices_region_witness :
  @AllocateIndices examplePlatform 0%Z kInt16 0 3 7 = (None, 7%Z, 0%Z) /\
  @AllocateIndices examplePlatform 0%Z kInt16 5 3 7
  = (Some 65539%Z, 1048579%Z, 32%Z) /\
  @AllocateIndices examplePlatform 4090%Z kInt32 5 0 7 = (None, 7%Z, 4090%Z).
Proof.
  destruct (@AllocateIndices_region examplePlatform 0%Z kInt16 0 3 7) as [H0 _].
  destruct (@AllocateIndices_region examplePlatform 0%Z kInt16 5 3 7) as (_ & H1 & _).
  destruct (@AllocateIndices_region examplePlatform 4090%Z kInt32 5 0 7) as (_ & H2 & _).
  split; [exact (H0 eq_refl)|]. split.
  - exact (proj2 (proj2 (proj2 (H1 ltac:(lia) ltac:(cbn; lia))))).
  - exact (proj2 (proj2 (proj2 (H2 ltac:(lia) ltac:(cbn; lia))))).
Defined.

End PrimitiveConverterFacts.

(** * Further properties of the SPIR-V builder *)

Lemma wrap32_succ u k :
  wrap32 (wrap32 (u + k) + 1) = wrap32 (u + (k + 1)).
Proof. unfold wrap32. rewrite Z.add_mod_idemp_l by lia. f_equal. lia. Qed.

Lemma emit_step e s :
  buildPoint s < length (blockHeap s) ->
  exists s' code,
    emit e s = Ok (wrap32 (uniqueId s + 1), s') /\
    emits s s' code /\
    uniqueId s' = wrap32 (uniqueId s + 1) /\
    generatingOpCodeForSpecConst s' = generatingOpCodeForSpecConst s /\
    length code
    = (if appendsInstruction (generatingOpCodeForSpecConst s) e then 1 else 0) /\
    Forall (fun inst => resultId inst = wrap32 (uniqueId s + 1)) code /\
    length (constantsTypesGlobals s')
    = length (constantsTypesGlobals s) + (1 - length code) /\
    length (decorations s')
    = length (decorations s) + (if decorates e then 1 else 0).
Proof.
  intros Hbp.
  assert (Hone : forall (inst : Instruction),
            resultId inst = wrap32 (uniqueId s + 1) ->
            Forall (fun i => resultId i = wrap32 (uniqueId s + 1)) [inst])
    by (intros; now constructor).
  destruct e; cbn [emit appendsInstruction decorates].
  - destruct (generatingOpCodeForSpecConst s) eqn:Hmode.
    + eexists _, []. rewrite createQuadOp_folding by done.
      split; [reflexivity|]. split; [by apply emits_refl|]. cbn.
      rewrite length_app. cbn. repeat split; try done; lia.
    + eexists _, [_]. rewrite createQuadOp_runtime by done.
      split; [reflexivity|]. split; [by apply emits_one|]. cbn.
      repeat split; try done; try lia. now apply Hone.
  - unfold createNoContractionUnaryOp.
    erewrite bind_Ok by (by apply createUnaryOp_Ok).
    destruct (generatingOpCodeForSpecConst s) eqn:Hmode.
    + eexists _, []. split; [run|]. split; [by apply emits_refl|]. cbn.
      rewrite !length_app. cbn. repeat split; try done; lia.
    + eexists _, [_]. split; [run|]. split; [by apply emits_one|]. cbn.
      rewrite !length_app. cbn. repeat split; try done; try lia. now apply Hone.
  - unfold createNoContractionBinOp.
    erewrite bind_Ok by (by apply createBinOp_Ok).
    destruct (generatingOpCodeForSpecConst s) eqn:Hmode.
    + eexists _, []. split; [run|]. split; [by apply emits_refl|]. cbn.
      rewrite !length_app. cbn. repeat split; try done; lia.
    + eexists _, [_]. split; [run|]. split; [by apply emits_one|]. cbn.
      rewrite !length_app. cbn. repeat split; try done; try lia. now apply Hone.
  - eexists _, [_]. rewrite createUnaryBuiltinCall_Ok by done.
    split; [reflexivity|]. split; [by apply emits_one|]. cbn.
    repeat split; try done; try lia. now apply Hone.
  - eexists _, [_]. rewrite createBinBuiltinCall_Ok by done.
    split; [reflexivity|]. split; [by apply emits_one|]. cbn.
    repeat split; try done; try lia. now apply Hone.
  - eexists _, [_]. rewrite createTriBuiltinCall_Ok by done.
    split; [reflexivity|]. split; [by apply emits_one|]. cbn.
    repeat split; try done; try lia. now apply Hone.
Qed.

Lemma wrap32_add_l a b : wrap32 (wrap32 a + b) = wrap32 (a + b).
Proof. unfold wrap32. now rewrite Z.add_mod_idemp_l by lia. Qed.

(** X8: A sequence of emission calls issued at a valid build point returns, and
    is straight-line code.  The id counter advances by the number of calls
    (modulo 2^32).  The block at the build point receives one instruction
    per call that appends in the current mode -- every call outside
    spec-constant mode, only the builtin calls inside it -- and the constant
    table one record for each of the other calls; one decoration is recorded
    per no-contraction call.  Outside the mode the instructions appended
    carry, in call order, the consecutive ids after the counter. *)
Theorem emitAll_counts es : forall s,
  buildPoint s < length (blockHeap s) ->
  (0 <= uniqueId s < 2 ^ 32)%Z ->
  exists s' code,
    emitAll es s = Ok (tt, s') /\
    emits s s' code /\
    uniqueId s' = wrap32 (uniqueId s + Z.of_nat (length es)) /\
    generatingOpCodeForSpecConst s' = generatingOpCodeForSpecConst s /\
    length code
    = length (List.filter (appendsInstruction (generatingOpCodeForSpecConst s)) es) /\
    length (constantsTypesGlobals s')
    = length (constantsTypesGlobals s) + (length es - length code) /\
    length (decorations s')
    = length (decorations s) + length (List.filter decorates es) /\
    (generatingOpCodeForSpecConst s = false ->
     length code = length es /\
     map resultId code
     = map (fun i => wrap32 (uniqueId s + Z.of_nat i)) (seq 1 (length es))).
Proof.
  induction es as [|e es IH]; intros s Hbp Hu.
  - exists s, []. cbn. rewrite Z.add_0_r, wrap32_small by done.
    split; [reflexivity|]. split; [by apply emits_refl|].
    repeat split; lia.
  - destruct (emit_step e s Hbp)
      as (s1 & c1 & He & Hem1 & Hid1 & Hmode1 & Hlen1 & Hres1 & Hconst1 & Hdec1).
    destruct (IH s1) as (s2 & c2 & Hes & Hem2 & Hid2 & Hmode2 & Hlen2 & Hconst2
                            & Hdec2 & Hrun2).
    { destruct Hem1 as (-> & _ & ->). now rewrite length_alter. }
    { rewrite Hid1. apply Z.mod_pos_bound. lia. }
    exists s2, (c1 ++ c2). cbn [emitAll].
    split; [now rewrite (bind_Ok _ _ _ _ _ He)|].
    split; [by eapply emits_trans|].
    rewrite Hmode1 in *.
    split.
    { rewrite Hid2, Hid1, wrap32_add_l. f_equal. cbn [length]. lia. }
    split; [congruence|].
    assert (Hfilter : length (List.filter
                (appendsInstruction (generatingOpCodeForSpecConst s)) (e :: es))
              = length c1 + length c2).
    { cbn [List.filter]. rewrite Hlen1, Hlen2.
      destruct (appendsInstruction _ e); cbn [length]; lia. }
    assert (Hc1 : length c1 <= 1)
      by (rewrite Hlen1; destruct (appendsInstruction _ e); lia).
    assert (Hc2 : length c2 <= length es).
    { rewrite Hlen2. apply List.filter_length_le. }
    split; [rewrite length_app; lia|].
    split; [rewrite length_app, Hconst2, Hconst1; cbn [length]; lia|].
    split.
    { rewrite Hdec2, Hdec1. cbn [List.filter].
      destruct (decorates e); cbn [length]; lia. }
    intros Hrun. specialize (Hrun2 Hrun) as [Hl2 Hids2].
    rewrite Hrun in Hlen1. cbn [appendsInstruction] in Hlen1.
    assert (Hl1 : length c1 = 1)
      by (rewrite Hlen1; destruct e; reflexivity).
    split; [rewrite length_app; cbn [length]; lia|].
    destruct c1 as [|inst [|]]; try discriminate.
    pose proof (List.Forall_inv Hres1) as Hres. cbn beta in Hres.
    cbn [app map length seq]. rewrite Hres, Hids2, Hid1.
    change (Z.of_nat 1) with 1%Z. f_equal.
    rewrite <- (seq_shift (length es) 1), List.map_map.
    apply List.map_ext. intros i. rewrite wrap32_add_l. f_equal. lia.
Qed.

Lemma emitAll_counts_witness :
  exists s' code,
    emitAll [QuadOp 128 3 20 21 22 23; NoContractionBinOp 129 3 20 21;
             UnaryBuiltinCall 3 5 31 20] exampleFolding = Ok (tt, s') /\
    emits exampleFolding s' code /\
    uniqueId s' = 13%Z /\
    length code = 1 /\
    length (constantsTypesGlobals s') = 2 /\
    length (decorations s') = 1.
Proof.
  destruct (emitAll_counts
              [QuadOp 128 3 20 21 22 23; NoContractionBinOp 129 3 20 21;
               UnaryBuiltinCall 3 5 31 20] exampleFolding)
    as (s' & code & Hrun & Hem & Hid & _ & Hlen & Hconst & Hdec & _).
  - cbn. lia.
  - cbn. lia.
  - exists s', code. rewrite Hconst, Hlen.
    split; [exact Hrun|]. split; [exact Hem|]. split; [exact Hid|].
    split; [reflexivity|]. split; [reflexivity|]. exact Hdec.
Defined.

Lemma instructionsAt_addInstruction inst q h p :
  instructionsAt (alter (Block_addInstruction inst) q h) p
  = (fun l => l ++ (if q =? p then [inst] else [])) <$> instructionsAt h p.
Proof.
  unfold instructionsAt. destruct (Nat.eqb_spec q p) as [->|Hne].
  - rewrite list_lookup_alter_eq. now destruct (h !! p).
  - rewrite list_lookup_alter_ne by done.
    destruct (h !! p); cbn; [|done]. now rewrite app_nil_r.
Qed.

Lemma predecessorsAt_addInstruction inst q h p :
  predecessorsAt (alter (Block_addInstruction inst) q h) p = predecessorsAt h p.
Proof.
  unfold predecessorsAt. destruct (decide (q = p)) as [->|Hne].
  - rewrite list_lookup_alter_eq. now destruct (h !! p).
  - now rewrite list_lookup_alter_ne.
Qed.

Lemma predecessorsAt_addPredecessor pred q h p :
  predecessorsAt (alter (Block_addPredecessor pred) q h) p
  = (fun l => l ++ (if q =? p then [pred] else [])) <$> predecessorsAt h p.
Proof.
  unfold predecessorsAt. destruct (Nat.eqb_spec q p) as [->|Hne].
  - rewrite list_lookup_alter_eq. now destruct (h !! p).
  - rewrite list_lookup_alter_ne by done.
    destruct (h !! p); cbn; [|done]. now rewrite app_nil_r.
Qed.

Lemma blocksAt_addBlock block q fs f :
  blocksAt (alter (Function_addBlock block) q fs) f
  = (fun l => l ++ (if q =? f then [block] else [])) <$> blocksAt fs f.
Proof.
  unfold blocksAt. destruct (Nat.eqb_spec q f) as [->|Hne].
  - rewrite list_lookup_alter_eq. now destruct (fs !! f).
  - rewrite list_lookup_alter_ne by done.
    destruct (fs !! f); cbn; [|done]. now rewrite app_nil_r.
Qed.

Lemma option_fmap_fmap {A B C} (f : A -> B) (g : B -> C) (o : option A) :
  g <$> (f <$> o) = (fun x => g (f x)) <$> o.
Proof. now destruct o. Qed.

Lemma option_fmap_ext' {A B} (f g : A -> B) (o : option A) :
  (forall x, f x = g x) -> f <$> o = g <$> o.
Proof. intros Hfg. destruct o; cbn; [now rewrite Hfg | done]. Qed.

Lemma makeBeginElse_closed NDEBUG branchToMerge ib s ib' s' :
  makeBeginElse NDEBUG branchToMerge ib s = Ok (ib', s') ->
  let h := blockHeap s in
  let bp := buildPoint s in
  let n := length h in
  let id := wrap32 (uniqueId s + 1) in
  ib' = set_currentBranch NDEBUG kElse
          (set_elseBlock (Some n)
             (if branchToMerge then set_thenPhiParent (blockIdAt h bp) ib
              else ib)) /\
  s' = mkBuilder id n (generatingOpCodeForSpecConst s)
         ((if branchToMerge then
             alter (Block_addPredecessor bp) (mergeBlock ib)
               (alter (Block_addInstruction
                         (branchTo (blockIdAt h (mergeBlock ib)))) bp h)
           else h) ++ [Block_new id (function ib)])
         (alter (Function_addBlock n) (function ib) (functionHeap s))
         (constantsTypesGlobals s) (decorations s).
Proof.
  intros H h bp n id. subst h bp n id.
  destruct (makeBeginElse_inv _ _ _ _ _ H) as (Hphase & Hf & Hbp).
  unfold makeBeginElse in H.
  rewrite (bind_Ok _ _ s tt s) in H.
  2:{ destruct NDEBUG; [done|]. unfold assert_true. now rewrite Hphase. }
  destruct ib as [c ctl tw ew f hd th el mg tp ep cb]; cbn in *.
  destruct branchToMerge; invM H; proj_simpl;
    rewrite ?length_alter, ?blockIdAt_addInstruction, ?blockIdAt_addPredecessor;
    destruct NDEBUG; split; reflexivity.
Qed.

(** X9: The whole effect of a returning [makeEndIf], whatever blocks the
    pointers of the builder designate and however they alias.  It allocates
    no id and no block and leaves the mode flag, the constants and the
    decorations alone.  Each block keeps its id and its instructions,
    followed by the branch to the merge block if it is the build point and
    [branchToMerge] is set, followed by the selection merge and the
    conditional branch if it is the header: no other block receives an
    instruction.  Each block keeps its predecessors, followed by the build
    point if it is the merge block and [branchToMerge] is set, by the header
    if it is the then-block, and by the header if it is the false target.
    The merge block is appended to the block list of the construct's
    function and to no other, and becomes the build point. *)
Theorem makeEndIf_effect (NDEBUG branchToMerge : bool) (ib ib' : IfBuilder)
    (s s' : Builder) :
  makeEndIf NDEBUG branchToMerge ib s = Ok (ib', s') ->
  let h := blockHeap s in
  let falseBlock := default (mergeBlock ib) (elseBlock ib) in
  let mergeId := blockIdAt h (mergeBlock ib) in
  let weights :=
    if negb (thenWeight ib =? 0)%Z || negb (elseWeight ib =? 0)%Z
    then [ImmediateOperand (thenWeight ib); ImmediateOperand (elseWeight ib)]
    else [] in
  buildPoint s' = mergeBlock ib /\
  uniqueId s' = uniqueId s /\
  generatingOpCodeForSpecConst s' = generatingOpCodeForSpecConst s /\
  constantsTypesGlobals s' = constantsTypesGlobals s /\
  decorations s' = decorations s /\
  length (blockHeap s') = length h /\
  length (functionHeap s') = length (functionHeap s) /\
  (forall p, blockIdAt (blockHeap s') p = blockIdAt h p) /\
  (forall p,
     instructionsAt (blockHeap s') p
     = (fun l =>
          l ++ (if branchToMerge && (buildPoint s =? p) then [branchTo mergeId]
                else [])
            ++ (if headerBlock ib =? p
                then [selectionMerge mergeId (control ib);
                      branchConditional (condition ib)
                        (blockIdAt h (thenBlock ib)) (blockIdAt h falseBlock)
                        weights]
                else []))
       <$> instructionsAt h p) /\
  (forall p,
     predecessorsAt (blockHeap s') p
     = (fun l =>
          l ++ (if branchToMerge && (mergeBlock ib =? p) then [buildPoint s]
                else [])
            ++ (if thenBlock ib =? p then [headerBlock ib] else [])
            ++ (if falseBlock =? p then [headerBlock ib] else []))
       <$> predecessorsAt h p) /\
  (forall f,
     blocksAt (functionHeap s') f
     = (fun l => l ++ (if function ib =? f then [mergeBlock ib] else []))
       <$> blocksAt (functionHeap s) f).
Proof.
  intros H h falseBlock mergeId weights.
  destruct (makeEndIf_inv _ _ _ _ _ H) as (Hphase & Hvalid & Hbp).
  rewrite makeEndIf_Ok in H by done. apply Ok_inv in H as [-> ->].
  subst h falseBlock mergeId weights. cbn [uniqueId buildPoint
    generatingOpCodeForSpecConst constantsTypesGlobals decorations blockHeap
    functionHeap].
  split; [done|].
  split; [done|]. split; [done|]. split; [done|]. split; [done|].
  split; [rewrite !length_alter; apply length_branch_heap|].
  split; [now rewrite length_alter|].
  split.
  { intros p. repeat (rewrite blockIdAt_addInstruction
                      || rewrite blockIdAt_addPredecessor).
    destruct branchToMerge; [|done].
    now rewrite blockIdAt_addPredecessor, blockIdAt_addInstruction. }
  split.
  { intros p.
    rewrite !instructionsAt_addPredecessor, !instructionsAt_addInstruction.
    destruct branchToMerge; cbn [andb].
    - rewrite instructionsAt_addPredecessor, instructionsAt_addInstruction.
      rewrite !option_fmap_fmap. apply option_fmap_ext'. intros l.
      destruct (headerBlock ib =? p); cbn [app];
        rewrite <- ?app_assoc; reflexivity.
    - rewrite !option_fmap_fmap. apply option_fmap_ext'. intros l.
      destruct (headerBlock ib =? p); cbn [app];
        rewrite <- ?app_assoc; reflexivity. }
  split.
  { intros p.
    rewrite !predecessorsAt_addPredecessor, !predecessorsAt_addInstruction.
    destruct branchToMerge; cbn [andb].
    - rewrite predecessorsAt_addPredecessor, predecessorsAt_addInstruction.
      rewrite !option_fmap_fmap. apply option_fmap_ext'. intros l.
      now rewrite <- !app_assoc.
    - rewrite !option_fmap_fmap. apply option_fmap_ext'. intros l.
      now rewrite <- !app_assoc. }
  intros f. apply blocksAt_addBlock.
Qed.

Lemma instructionsAt_app_l h k p :
  p < length h -> instructionsAt (h ++ k) p = instructionsAt h p.
Proof. intros Hp. unfold instructionsAt. now rewrite lookup_app_l. Qed.

Lemma predecessorsAt_app_l h k p :
  p < length h -> predecessorsAt (h ++ k) p = predecessorsAt h p.
Proof. intros Hp. unfold predecessorsAt. now rewrite lookup_app_l. Qed.

Lemma option_fmap_id' {A} (f : A -> A) (o : option A) :
  (forall x, f x = x) -> f <$> o = o.
Proof. intros Hf. destruct o; cbn; [now rewrite Hf | done]. Qed.

(** X10: The whole effect of a returning [makeBeginElse].  It allocates one id
    and one block, the else-block, which is empty, has no predecessor,
    carries the new id, is appended to the block list of the construct's
    function and to no other, and is the new build point.  Each block that
    existed keeps its id, and its instructions and predecessors, followed by
    the branch to the merge block if it is the build point, respectively by
    the build point if it is the merge block, when [branchToMerge] is set.
    [thenPhiParent] becomes the id of the build point's block when
    [branchToMerge] is set and is kept otherwise; the mode flag, the
    constants and the decorations are left alone. *)
Theorem makeBeginElse_effect (NDEBUG branchToMerge : bool) (ib ib' : IfBuilder)
    (s s' : Builder) :
  makeBeginElse NDEBUG branchToMerge ib s = Ok (ib', s') ->
  let h := blockHeap s in
  let n := length h in
  let id := wrap32 (uniqueId s + 1) in
  let mergeId := blockIdAt h (mergeBlock ib) in
  uniqueId s' = id /\
  buildPoint s' = n /\
  elseBlock ib' = Some n /\
  thenPhiParent ib'
  = (if branchToMerge then blockIdAt h (buildPoint s) else thenPhiParent ib) /\
  elsePhiParent ib' = elsePhiParent ib /\
  generatingOpCodeForSpecConst s' = generatingOpCodeForSpecConst s /\
  constantsTypesGlobals s' = constantsTypesGlobals s /\
  decorations s' = decorations s /\
  length (blockHeap s') = S n /\
  blockHeap s' !! n = Some (Block_new id (function ib)) /\
  (forall p, p < n ->
     blockIdAt (blockHeap s') p = blockIdAt h p /\
     instructionsAt (blockHeap s') p
     = (fun l => l ++ (if branchToMerge && (buildPoint s =? p)
                       then [branchTo mergeId] else []))
       <$> instructionsAt h p /\
     predecessorsAt (blockHeap s') p
     = (fun l => l ++ (if branchToMerge && (mergeBlock ib =? p)
                       then [buildPoint s] else []))
       <$> predecessorsAt h p) /\
  (forall f,
     blocksAt (functionHeap s') f
     = (fun l => l ++ (if function ib =? f then [n] else []))
       <$> blocksAt (functionHeap s) f).
Proof.
  intros H h n id mergeId.
  destruct (makeBeginElse_closed _ _ _ _ _ _ H) as [-> ->].
  subst h n id mergeId. cbn [uniqueId buildPoint generatingOpCodeForSpecConst
    constantsTypesGlobals decorations blockHeap functionHeap].
  assert (Hlen : length (if branchToMerge then
              alter (Block_addPredecessor (buildPoint s)) (mergeBlock ib)
                (alter (Block_addInstruction
                          (branchTo (blockIdAt (blockHeap s) (mergeBlock ib))))
                   (buildPoint s) (blockHeap s))
            else blockHeap s) = length (blockHeap s))
    by apply length_branch_heap.
  split; [done|]. split; [done|].
  split; [now destruct NDEBUG|].
  split; [now destruct NDEBUG, branchToMerge|].
  split; [now destruct NDEBUG, branchToMerge|].
  split; [done|]. split; [done|]. split; [done|].
  split; [rewrite length_app, Hlen; cbn; lia|].
  split; [now apply list_lookup_middle|].
  split.
  - intros p Hp.
    rewrite blockIdAt_app_l, instructionsAt_app_l, predecessorsAt_app_l
      by (rewrite Hlen; exact Hp).
    destruct branchToMerge; cbn [andb].
    + rewrite blockIdAt_addPredecessor, blockIdAt_addInstruction.
      rewrite instructionsAt_addPredecessor, instructionsAt_addInstruction.
      rewrite predecessorsAt_addPredecessor, predecessorsAt_addInstruction.
      done.
    + split; [done|].
      split; symmetry; apply option_fmap_id'; intros l; apply app_nil_r.
  - intros f. apply blocksAt_addBlock.
Qed.

Lemma makeBeginElse_effect_witness :
  exists ib s1 ib' s',
    IfBuilder_new 9 0 0 0 exampleBuilder = Ok (ib, s1) /\
    makeBeginElse false true ib s1 = Ok (ib', s') /\
    uniqueId s' = 13%Z /\
    buildPoint s' = 3 /\
    blockHeap s' !! 3 = Some (Block_new 13 0) /\
    instructionsAt (blockHeap s') 1 = Some [branchTo 12] /\
    predecessorsAt (blockHeap s') 2 = Some [1] /\
    blocksAt (functionHeap s') 0 = Some [0; 1; 3].
Proof.
  call_result ib s1 (IfBuilder_new 9 0 0 0 exampleBuilder).
  call_result ib' s' (makeBeginElse false true ib s1).
  destruct (makeBeginElse_effect false true ib ib' s1 s' eq_refl)
    as (Hid & Hbp & _ & _ & _ & _ & _ & _ & _ & Hnew & Hold & Hfun).
  exists ib, s1, ib', s'.
  split; [reflexivity|]. split; [reflexivity|].
  split; [exact Hid|]. split; [exact Hbp|]. split; [exact Hnew|].
  split; [exact (proj1 (proj2 (Hold 1 ltac:(cbn; lia))))|].
  split; [exact (proj2 (proj2 (Hold 2 ltac:(cbn; lia))))|].
  exact (Hfun 0).
Defined.

Lemma makeEndIf_effect_witness :
  exists ib s1 ib' s',
    IfBuilder_new 9 0 3 0 exampleBuilder = Ok (ib, s1) /\
    makeEndIf false true ib s1 = Ok (ib', s') /\
    uniqueId s' = uniqueId s1 /\
    instructionsAt (blockHeap s') 0
    = Some [selectionMerge 12 0;
            branchConditional 9 11 12 [ImmediateOperand 3; ImmediateOperand 0]] /\
    instructionsAt (blockHeap s') 1 = Some [branchTo 12] /\
    instructionsAt (blockHeap s') 2 = Some [] /\
    predecessorsAt (blockHeap s') 1 = Some [0] /\
    predecessorsAt (blockHeap s') 2 = Some [1; 0] /\
    blocksAt (functionHeap s') 0 = Some [0; 1; 2].
Proof.
  call_result ib s1 (IfBuilder_new 9 0 3 0 exampleBuilder).
  call_result ib' s' (makeEndIf false true ib s1).
  destruct (makeEndIf_effect false true ib ib' s1 s' eq_refl)
    as (_ & Hid & _ & _ & _ & _ & _ & _ & Hinstr & Hpred & Hfun).
  exists ib, s1, ib', s'.
  split; [reflexivity|]. split; [reflexivity|]. split; [exact Hid|].
  split; [exact (Hinstr 0)|]. split; [exact (Hinstr 1)|].
  split; [exact (Hinstr 2)|]. split; [exact (Hpred 1)|].
  split; [exact (Hpred 2)|]. exact (Hfun 0).
Defined.

(** X11 ([SpirvBuilder::IfBuilder::createMergePhi]): the only check of the
    function is that the build point is the merge block.  When it is any
    other block, a debug build stops at the assertion; a release build checks
    nothing and, outside spec-constant mode, appends the [OpPhi] to whatever
    block is the build point, with the next id and the parents the construct
    recorded. *)
Theorem createMergePhi_build_point_check (getTypeId : Builder -> Id -> Id)
    (a b : Id) (ib : IfBuilder) (s : Builder) :
  buildPoint s <> mergeBlock ib ->
  createMergePhi getTypeId false a b ib s = AssertionFailure /\
  (forall blk,
     generatingOpCodeForSpecConst s = false ->
     blockHeap s !! buildPoint s = Some blk ->
     let id := wrap32 (uniqueId s + 1) in
     let phi := mkInstruction id (getTypeId s a) OpPhi
                  [IdOperand a; IdOperand (thenPhiParent ib);
                   IdOperand b; IdOperand (elsePhiParent ib)] in
     createMergePhi getTypeId true a b ib s
     = Ok (id, set_blockHeap
                 (<[buildPoint s := Block_addInstruction phi blk]> (blockHeap s))
                 (set_uniqueId id s))).
Proof.
  intros Hne. split.
  - unfold createMergePhi, bind, getBuildPoint, gets, assert_true.
    apply Nat.eqb_neq in Hne. now rewrite Hne.
  - intros blk Hmode Hblk id phi. unfold createMergePhi.
    rewrite (bind_Ok _ _ s (buildPoint s) s) by reflexivity.
    rewrite (bind_Ok _ _ s tt s) by reflexivity.
    rewrite (bind_Ok _ _ s (getTypeId s a) s) by reflexivity.
    rewrite createQuadOp_runtime by (done || by eapply lookup_lt_Some).
    now rewrite (alter_insert_lookup _ _ _ _ Hblk).
Qed.

Lemma createMergePhi_build_point_check_witness :
  createMergePhi exampleTypes false 20 21
    (mkIfBuilder 9 0 0 0 0 0 1 None 2 11 2 kMerge) exampleBuilder
  = AssertionFailure /\
  createMergePhi exampleTypes true 20 21
    (mkIfBuilder 9 0 0 0 0 0 1 None 2 11 2 kMerge) exampleBuilder
  = Ok (11%Z,
        mkBuilder 11 0 false
          [mkBlock 2 0
             [mkInstruction 11 3 OpPhi
                [IdOperand 20; IdOperand 11; IdOperand 21; IdOperand 2]] []]
          [mkFunction 1 [0]] [] []).
Proof.
  destruct (createMergePhi_build_point_check exampleTypes 20 21
              (mkIfBuilder 9 0 0 0 0 0 1 None 2 11 2 kMerge) exampleBuilder)
    as [Hdebug Hrelease].
  - cbn. lia.
  - split; [exact Hdebug|].
    exact (Hrelease (mkBlock 2 0 [] []) eq_refl eq_refl).
Defined.

(** X12 ([SpirvBuilder::IfBuilder::makeBeginElse], [makeEndIf]): a build
    with [NDEBUG] neither checks nor records the phase.  On any valid
    construct, in any phase, [makeBeginElse] can be called twice and
    [makeEndIf] after it, and a second [makeEndIf] still returns: each
    [makeBeginElse] allocates a fresh else-block (the second replaces the
    first in the construct), the function receives both else-blocks and the
    merge block in call order, and [currentBranch] is never written. *)
Theorem release_build_checks_no_phase (b1 b2 b3 : bool) (ib : IfBuilder)
    (s : Builder) :
  IfBuilder_valid ib s ->
  buildPoint s < length (blockHeap s) ->
  let n := length (blockHeap s) in
  exists ib1 s1 ib2 s2 ib3 s3,
    makeBeginElse true b1 ib s = Ok (ib1, s1) /\
    makeBeginElse true b2 ib1 s1 = Ok (ib2, s2) /\
    makeEndIf true b3 ib2 s2 = Ok (ib3, s3) /\
    elseBlock ib1 = Some n /\
    elseBlock ib2 = Some (S n) /\
    elseBlock ib3 = Some (S n) /\
    currentBranch ib3 = currentBranch ib /\
    blocksAt (functionHeap s3) (function ib)
    = (fun l => l ++ [n; S n; mergeBlock ib]) <$> blocksAt (functionHeap s) (function ib) /\
    exists r, makeEndIf true b3 ib3 s3 = Ok r.
Proof.
  intros Hvalid Hbp n.
  destruct (makeBeginElse_returns true b1 ib s Hvalid) as (ib1 & s1 & H1);
    [done|discriminate|].
  pose proof (makeBeginElse_valid _ _ _ _ _ _ H1 Hvalid) as (Hv1 & Hbp1 & _).
  destruct (makeBeginElse_returns true b2 ib1 s1 Hv1) as (ib2 & s2 & H2);
    [done|discriminate|].
  pose proof (makeBeginElse_valid _ _ _ _ _ _ H2 Hv1) as (Hv2 & Hbp2 & _).
  destruct (makeEndIf_returns true b3 ib2 s2 Hv2) as (ib3 & s3 & H3);
    [done|discriminate|].
  pose proof (makeEndIf_valid _ _ _ _ _ _ H3) as (Hv3 & Hbp3 & _).
  destruct (makeEndIf_returns true b3 ib3 s3 Hv3) as (ib4 & s4 & H4);
    [intros _; rewrite Hbp3; destruct Hv3 as (_ & _ & Hm3 & _); exact Hm3
    |discriminate|].
  exists ib1, s1, ib2, s2, ib3, s3.
  split; [exact H1|]. split; [exact H2|]. split; [exact H3|].
  destruct (makeBeginElse_closed _ _ _ _ _ _ H1) as [E1 S1].
  destruct (makeBeginElse_closed _ _ _ _ _ _ H2) as [E2 S2].
  destruct (makeEndIf_inv _ _ _ _ _ H3) as (Hp3 & Hvv3 & Hbb3).
  rewrite makeEndIf_Ok in H3 by done. apply Ok_inv in H3 as [E3 S3].
  assert (Hn1 : length (blockHeap s1) = S n).
  { rewrite S1. cbn. rewrite length_app, length_branch_heap. cbn. lia. }
  assert (Hel1 : elseBlock ib1 = Some n) by (rewrite E1; reflexivity).
  assert (Hel2 : elseBlock ib2 = Some (S n))
    by (rewrite E2, Hn1; reflexivity).
  assert (Hfun : function ib2 = function ib /\ mergeBlock ib2 = mergeBlock ib
                 /\ currentBranch ib2 = currentBranch ib).
  { rewrite E2, E1. destruct b1, b2; done. }
  destruct Hfun as (Hf2 & Hm2 & Hc2).
  assert (Hf1 : function ib1 = function ib) by (rewrite E1; now destruct b1).
  split; [exact Hel1|]. split; [exact Hel2|].
  split; [rewrite E3; cbn; destruct b3; [rewrite Hel2|]; exact Hel2|].
  split; [rewrite E3; cbn; destruct b3; [rewrite Hel2|]; exact Hc2|].
  split; [|eauto].
  rewrite S3. cbn [functionHeap]. rewrite S2. cbn [functionHeap].
  rewrite Hn1, S1. cbn [functionHeap].
  rewrite !blocksAt_addBlock, Hf2, Hf1, Hm2, Nat.eqb_refl.
  rewrite !option_fmap_fmap. apply option_fmap_ext'. intros l.
  now rewrite <- !app_assoc.
Qed.

Lemma release_build_checks_no_phase_witness :
  exists ib s ib1 s1 ib2 s2 ib3 s3,
    IfBuilder_new 9 0 0 0 exampleBuilder = Ok (ib, s) /\
    makeBeginElse true true ib s = Ok (ib1, s1) /\
    makeBeginElse true false ib1 s1 = Ok (ib2, s2) /\
    makeEndIf true true ib2 s2 = Ok (ib3, s3) /\
    elseBlock ib3 = Some 4 /\
    blocksAt (functionHeap s3) 0 = Some [0; 1; 3; 4; 2].
Proof.
  call_result ib s (IfBuilder_new 9 0 0 0 exampleBuilder).
  destruct (release_build_checks_no_phase true false true ib s)
    as (ib1 & s1 & ib2 & s2 & ib3 & s3 & H1 & H2 & H3 & _ & _ & He & _ & Hb & _).
  - unfold IfBuilder_valid. cbn. repeat split; try lia. intros e; discriminate.
  - cbn. lia.
  - exists ib, s, ib1, s1, ib2, s2, ib3, s3.
    split; [reflexivity|]. split; [exact H1|]. split; [exact H2|].
    split; [exact H3|]. split; [exact He|]. exact Hb.
Defined.

Lemma length_snoc2 {A} (h : list A) x y : length (h ++ [x; y]) = S (S (length h)).
Proof. rewrite length_app. cbn. lia. Qed.

Lemma length_snoc1 {A} (h : list A) x : length (h ++ [x]) = S (length h).
Proof. rewrite length_app. cbn. lia. Qed.

Ltac len_norm :=
  repeat (rewrite length_alter || rewrite length_snoc2 || rewrite length_snoc1).

(** X13 ([SpirvBuilder::IfBuilder::IfBuilder], [makeEndIf]): constructs
    nest.  When a second construct is opened inside the then-region of a
    first and both are closed without else, every call returns, in debug and
    release builds, and: the inner header is the outer then-block; the
    function receives the blocks in the order outer then, inner then, inner
    merge, outer merge; the outer then-block ends in the inner selection
    merge and conditional branch; the inner merge block carries the code
    emitted after the inner construct and the branch to the outer merge; the
    outer construct's then phi parent is the id of the inner merge block, not
    of its own then-block; the header's split and the predecessor lists are
    those of the two constructs taken separately. *)
Theorem nested_IfBuilder (NDEBUG : bool) (c1 c2 : Id)
    (ctl1 tw1 ew1 ctl2 tw2 ew2 : Z) (s0 : Builder) (hb : Block) (f0 : Function) :
  blockHeap s0 !! buildPoint s0 = Some hb ->
  functionHeap s0 !! parent hb = Some f0 ->
  exists outer s1,
    IfBuilder_new c1 ctl1 tw1 ew1 s0 = Ok (outer, s1) /\
    forall s2 code1, emits s1 s2 code1 ->
    exists inner s3,
      IfBuilder_new c2 ctl2 tw2 ew2 s2 = Ok (inner, s3) /\
      forall s4 code2, emits s3 s4 code2 ->
      exists inner' s5,
        makeEndIf NDEBUG true inner s4 = Ok (inner', s5) /\
        forall s6 code3, emits s5 s6 code3 ->
        exists outer' s7,
          makeEndIf NDEBUG true outer s6 = Ok (outer', s7) /\
          nested_if s7 outer' inner' (blocks f0) (instructions hb)
            code1 code2 code3.
Proof.
  intros Hb Hf.
  pose proof (lookup_lt_Some _ _ _ Hb) as Hbp.
  pose proof (lookup_lt_Some _ _ _ Hf) as Hfp.
  rewrite IfBuilder_new_Ok with (hb := hb) by done.
  eexists _, _. split; [reflexivity|].
  intros [u2 bp2 fl2 h2 F2 k2 d2] code1 (Hbp2 & HF2 & Hh2).
  cbn in Hbp2, HF2, Hh2. subst bp2 F2 h2.
  rewrite IfBuilder_new_Ok
    with (hb := Block_addInstructions code1
                  (Block_new (wrap32 (uniqueId s0 + 1)) (parent hb))).
  2:{ cbn. heap_lookup. reflexivity. }
  2:{ cbn. now rewrite length_alter. }
  cbv zeta. proj_simpl. cbn [Block_addInstructions Block_new parent blockId].
  len_norm.
  eexists _, _. split; [reflexivity|].
  intros [u4 bp4 fl4 h4 F4 k4 d4] code2 (Hbp4 & HF4 & Hh4).
  cbn in Hbp4, HF4, Hh4. subst bp4 F4 h4.
  rewrite makeEndIf_Ok; [|valid_tac..].
  cbv zeta. proj_simpl. cbn [default from_option]. unfold id.
  eexists _, _. split; [reflexivity|].
  intros [u6 bp6 fl6 h6 F6 k6 d6] code3 (Hbp6 & HF6 & Hh6).
  cbn in Hbp6, HF6, Hh6. subst bp6 F6 h6.
  rewrite makeEndIf_Ok; [|valid_tac..].
  cbv zeta. proj_simpl. cbn [default from_option]. unfold id.
  eexists _, _. split; [reflexivity|].
  unfold nested_if. rewrite !set_currentBranch_eta. proj_simpl.
  id_norm. heap_lookup. rewrite Hb, Hf. cbn.
  eexists _, _, _, _, _, _, _, _.
  repeat split; try reflexivity; cbn; rewrite <- ?app_assoc; cbn; auto.
Qed.

Lemma nested_IfBuilder_witness :
  exists outer s1,
    IfBuilder_new 9 0 0 0 exampleBuilder = Ok (outer, s1) /\
    forall s2 code1, emits s1 s2 code1 ->
    exists inner s3,
      IfBuilder_new 8 0 0 0 s2 = Ok (inner, s3) /\
      forall s4 code2, emits s3 s4 code2 ->
      exists inner' s5,
        makeEndIf false true inner s4 = Ok (inner', s5) /\
        forall s6 code3, emits s5 s6 code3 ->
        exists outer' s7,
          makeEndIf false true outer s6 = Ok (outer', s7) /\
          nested_if s7 outer' inner' [0] [] code1 code2 code3.
Proof.
  exact (nested_IfBuilder false 9 8 0 0 0 0 0 0 exampleBuilder
           (mkBlock 2 0 [] []) (mkFunction 1 [0]) eq_refl eq_refl).
Defined.
